(** * pyRDDLGym-jax planner: a shallow embedding of [core/planner.py]

    The numeric parts of the planner (boolean action wrapping, constraint
    projection, risk utilities) are embedded over the real numbers; the
    optimization driver, whose behaviour depends on NaN and infinite losses,
    is embedded over binary64 floats. *)

From Stdlib Require Import String.
From Stdlib Require Import Reals Lra Lia Bool Arith ZArith List.
From Stdlib Require Import Permutation Sorted.
From Stdlib Require Floats.PrimFloat.
Import ListNotations.

Set Implicit Arguments.

(** ** Array helpers shared by the numeric sections *)

Module Jnp.
Local Open Scope R_scope.

(** A flattened tensor of reals. *)
Definition tensor := list R.

(** [jnp.sum] *)
Definition sum (l : tensor) : R := fold_right Rplus 0 l.

(** [jnp.clip(x, lo, hi)], which is [minimum(maximum(x, lo), hi)]. *)
Definition clip (x lo hi : R) : R := Rmin (Rmax x lo) hi.

(** [jax.nn.sigmoid] *)
Definition sigmoid (x : R) : R := 1 / (1 + exp (- x)).

(** [jax.scipy.special.logsumexp(a, b=b)] for a scalar weight [b]:
    the logarithm of the [b]-weighted sum of exponentials. *)
Definition logsumexp (a : tensor) (b : R) : R :=
  ln (sum (map (fun x => b * exp x) a)).

(** Comparison of reals as a boolean, for array masks such as [x > t]. *)
Definition gtb (x y : R) : bool := if Rlt_dec y x then true else false.
Definition ltb (x y : R) : bool := if Rlt_dec x y then true else false.

Lemma gtb_true x y : gtb x y = true <-> y < x.
Proof. unfold gtb; destruct (Rlt_dec y x); split; intros; try easy. Qed.

Lemma gtb_false x y : gtb x y = false <-> x <= y.
Proof.
  unfold gtb; destruct (Rlt_dec y x); split; intros; try easy; lra.
Qed.

Lemma sum_scale b f (l : tensor) :
  sum (map (fun x => b * f x) l) = b * sum (map f l).
Proof. induction l as [|x l IH]; simpl; [lra | rewrite IH; lra]. Qed.

Lemma sum_exp_pos f (l : tensor) :
  l <> [] -> 0 < sum (map (fun x => exp (f x)) l).
Proof.
  destruct l as [|x l]; [easy | intros _].
  revert x; induction l as [|y l IH]; intros x; simpl.
  - pose proof (exp_pos (f x)); lra.
  - pose proof (exp_pos (f x)); specialize (IH y); simpl in IH; lra.
Qed.

End Jnp.

(** ** Risk utilities *)

Module Utility.
Local Open Scope R_scope.
Import Jnp.

(** [entropic_utility(returns, beta)]:
    [(-1.0 / beta) * logsumexp(-beta * returns, b=1.0 / returns.size)]. *)
Definition entropic_utility (returns : tensor) (beta : R) : R :=
  (-1 / beta) *
  logsumexp (map (fun r => - beta * r) returns) (1 / INR (List.length returns)).

(** The formula as the specification words it: the unweighted
    [(-1/beta) * log (sum_i exp (-beta * returns_i))]. *)
Definition entropic_utility_spec (returns : tensor) (beta : R) : R :=
  (-1 / beta) * ln (sum (map (fun r => exp (- beta * r)) returns)).

(** *** Properties of the entropic utility *)

Lemma logsumexp_weighted (a : tensor) (b : R) :
  a <> [] -> 0 < b ->
  logsumexp a b = ln b + ln (sum (map exp a)).
Proof.
  intros Ha Hb. unfold logsumexp.
  rewrite (sum_scale b exp a).
  apply ln_mult; [exact Hb |].
  exact (sum_exp_pos (fun x => x) Ha).
Qed.

(** C7, as amended: for a non-empty batch and [beta > 0] the entropic utility
    is the log of the MEAN of the exponentials, that is the unweighted
    log-sum-exp formula plus [ln n / beta], where [n] is the batch size. *)
Theorem entropic_utility_log_mean_exp (returns : tensor) (beta : R) :
  returns <> [] -> 0 < beta ->
  entropic_utility returns beta
  = entropic_utility_spec returns beta + ln (INR (List.length returns)) / beta.
Proof.
  intros Hne Hb. unfold entropic_utility, entropic_utility_spec.
  assert (Hn : 0 < INR (List.length returns)).
  { destruct returns; [easy | apply lt_0_INR; simpl; lia]. }
  rewrite logsumexp_weighted.
  - rewrite map_map.
    replace (1 / INR (List.length returns)) with (/ INR (List.length returns))
      by (field; lra).
    rewrite ln_Rinv by exact Hn.
    field; lra.
  - destruct returns; [easy | discriminate].
  - apply Rdiv_lt_0_compat; lra.
Qed.

Lemma entropic_utility_log_mean_exp_witness :
  entropic_utility [0; 0] 1
  = entropic_utility_spec [0; 0] 1 + ln (INR (List.length [0; 0])) / 1.
Proof.
  apply (@entropic_utility_log_mean_exp [0; 0] 1); [discriminate | lra].
Defined.

(** C7, as stated, fails: on the batch [[0; 0]] with [beta = 1] the code
    returns [0] (the common return), not [- ln 2]. *)
Lemma entropic_utility_not_logsumexp :
  entropic_utility [0; 0] 1 = 0 /\
  entropic_utility_spec [0; 0] 1 = - ln 2 /\
  entropic_utility [0; 0] 1 <> entropic_utility_spec [0; 0] 1.
Proof.
  assert (H1 : entropic_utility [0; 0] 1 = 0).
  { unfold entropic_utility, logsumexp; simpl.
    replace (- (1) * 0) with 0 by lra. rewrite exp_0.
    replace (1 / (1 + 1) * 1 + (1 / (1 + 1) * 1 + 0)) with 1 by field.
    rewrite ln_1; lra. }
  assert (H2 : entropic_utility_spec [0; 0] 1 = - ln 2).
  { unfold entropic_utility_spec; simpl.
    replace (- (1) * 0) with 0 by lra. rewrite exp_0.
    replace (1 + (1 + 0)) with 2 by lra. lra. }
  repeat split; [exact H1 | exact H2 |].
  rewrite H1, H2. pose proof ln_lt_2. lra.
Qed.

End Utility.

(** ** Straight-line plan: [JaxStraightLinePlan.compile] *)

Module SLP.
Local Open Scope R_scope.
Import Jnp.

(** Value range of a variable, [rddl.variable_ranges[var]]. *)
Inductive prange := range_bool | range_int | range_real.

(** The part of the lifted model that [compile] reads.  [action_fluents] maps
    an action variable to its default (no-op) values, one per grounding, kept
    here by their truth value; [variable_ranges] and [max_allowed_actions] are
    as in the model. *)
Record RDDLLiftedModel := {
  action_fluents : list (string * list bool);
  variable_ranges : string -> prange;
  max_allowed_actions : nat
}.

(** Dictionaries are kept in insertion order. *)
Fixpoint assoc {A} (var : string) (d : list (string * A)) : option A :=
  match d with
  | [] => None
  | (k, v) :: d' => if String.eqb k var then Some v else assoc var d'
  end.

(** The trainable parameters of a plan: variable -> one flattened row per
    time step (leading axis of size [horizon]); and their slice at one step. *)
Definition plan_params := list (string * list tensor).
Definition step_params := list (string * tensor).
Definition hyperparams := string -> R.

(** [jnp.sort]: ascending order. *)
Fixpoint insert (x : R) (l : tensor) : tensor :=
  match l with
  | [] => [x]
  | y :: l' => if Rle_dec x y then x :: l else y :: insert x l'
  end.

Definition sort (l : tensor) : tensor := fold_right insert [] l.

(** [jnp.concatenate], which rejects an empty sequence of arrays. *)
Definition concatenate (ls : list tensor) : option tensor :=
  match ls with
  | [] => None
  | _ => Some (concat ls)
  end.

(** [jax.lax.while_loop]; [fuel] bounds the number of iterations of the
    model, [None] meaning that it was not enough. *)
Fixpoint while_loop {A} (cond_fun : A -> bool) (body_fun : A -> A)
         (fuel : nat) (init_val : A) : option A :=
  if cond_fun init_val then
    match fuel with
    | O => None
    | S fuel' => while_loop cond_fun body_fun fuel' (body_fun init_val)
    end
  else Some init_val.

(** Number of [true] entries of a mask, [jnp.sum(mask)]. *)
Definition count_true (mask : list bool) : nat :=
  List.length (filter (fun b => b) mask).

(** Sum of the sizes of the boolean action fluents. *)
Definition _count_bool_actions (rddl : RDDLLiftedModel) : nat * nat :=
  let constraint := max_allowed_actions rddl in
  let num_bool_actions :=
    list_sum (map (fun '(var, values) =>
                     match variable_ranges rddl var with
                     | range_bool => List.length values
                     | _ => O
                     end) (action_fluents rddl)) in
  (num_bool_actions, constraint).

(** Which projection [compile] installs. *)
Inductive projection_kind :=
| project_to_box
| sorting_project
| sogbofa_project.

Section Compile.

Variable rddl : RDDLLiftedModel.
Variable horizon : nat.
Variable wrap_sigmoid : bool.
Variable min_action_prob : R.
Variable wrap_non_bool : bool.
Variable wrap_softmax : bool.
Variable use_new_projection : bool.
Variable max_constraint_iter : nat.
(** Box bounds of the non-boolean actions; [None] is an infinite bound. *)
Variable bounds : string -> option R * option R.

Definition bool_action_count : nat := fst (_count_bool_actions rddl).
Definition allowed_actions : nat := snd (_count_bool_actions rddl).
Definition use_constraint_satisfaction : bool :=
  (allowed_actions <? bool_action_count)%nat.

Definition noop (var : string) : bool :=
  match assoc var (action_fluents rddl) with
  | Some (v :: _) => v
  | _ => false
  end.

Definition bool_key : string := "bool__".
Definition ranges : string -> prange := variable_ranges rddl.
Definition is_bool (var : string) : bool :=
  match ranges var with range_bool => true | _ => false end.

Definition bool_threshold : R := if wrap_sigmoid then 0 else 1 / 2.

Definition _jax_bool_param_to_action (var : string) (param : R)
           (hp : hyperparams) : R :=
  if wrap_sigmoid then
    let weight := hp var in sigmoid (weight * param)
  else param.

Definition _jax_bool_action_to_param (var : string) (action : R)
           (hp : hyperparams) : R :=
  if wrap_sigmoid then
    let weight := hp var in (-1 / weight) * ln (1 / action - 1)
  else action.

Definition min_action : R := min_action_prob.
Definition max_action : R := 1 - min_action.

Definition _jax_project_bool_to_box (var : string) (param : R)
           (hp : hyperparams) : R :=
  let lower := _jax_bool_action_to_param var min_action hp in
  let upper := _jax_bool_action_to_param var max_action hp in
  clip param lower upper.

(** [jnp.clip(param, *bounds[var])] with possibly infinite bounds. *)
Definition clip_bounds (var : string) (param : R) : R :=
  let '(lower, upper) := bounds var in
  let x := match lower with Some lo => Rmax param lo | None => param end in
  match upper with Some hi => Rmin x hi | None => x end.

Definition _jax_wrapped_slp_project_to_box (params : plan_params)
           (hp : hyperparams) : plan_params * list bool :=
  (map (fun '(var, param) =>
          if String.eqb var bool_key then (var, param)
          else if is_bool var then
            (var, map (map (fun x => _jax_project_bool_to_box var x hp)) param)
          else if wrap_non_bool then (var, param)
          else (var, map (map (clip_bounds var)) param)) params,
   [true]).

(** The boolean branch of [_jax_wrapped_slp_predict_test]: the action of a
    boolean variable at [step] is [param[step] > bool_threshold].  (The
    softmax block and the non-boolean branches are not needed here.) *)
Definition _jax_wrapped_slp_predict_test (params : plan_params)
           (step : nat) : list (string * list bool) :=
  flat_map (fun '(var, param) =>
              if is_bool var then
                [(var, map (fun x => gtb x bool_threshold) (nth step param []))]
              else []) params.

(** Number of boolean action entries that differ from their no-op value. *)
Definition count_non_noop (actions : list (string * list bool)) : nat :=
  list_sum (map (fun '(var, action) =>
                   count_true (map (fun a => negb (Bool.eqb a (noop var))) action))
                actions).

(** *** Sort-based projection *)

Definition sorting_scores (params : step_params) : list tensor :=
  flat_map (fun '(var, param) =>
              if is_bool var then
                let param_flat := param in
                [if noop var then
                   if wrap_sigmoid then map Ropp param_flat
                   else map (fun x => 1 - x) param_flat
                 else param_flat]
              else []) params.

Definition _jax_wrapped_sorting_project (params : step_params)
           (hp : hyperparams) : option (step_params * bool) :=
  match concatenate (sorting_scores params) with
  | None => None
  | Some scores =>
    let descending := rev (sort scores) in
    match nth_error descending allowed_actions with
    | None => None
    | Some kplus1st_greatest =>
      let surplus := Rmax (kplus1st_greatest - bool_threshold) 0 in
      Some (map (fun '(var, param) =>
                   if is_bool var then
                     (var, map (fun x =>
                                  _jax_project_bool_to_box var
                                    (x + (if noop var then surplus else - surplus)) hp)
                               param)
                   else (var, param)) params,
            true)
    end
  end.

(** [jax.vmap(f, in_axes=(0, None))]: [f] runs on the slice of every time
    step and the outputs are stacked along the leading axis. *)
Definition slice (t : nat) (params : plan_params) : step_params :=
  map (fun '(var, param) => (var, nth t param [])) params.

Fixpoint sequence {A} (l : list (option A)) : option (list A) :=
  match l with
  | [] => Some []
  | None :: _ => None
  | Some x :: l' =>
    match sequence l' with Some xs => Some (x :: xs) | None => None end
  end.

Definition stack (params : plan_params) (outs : list step_params) : plan_params :=
  map (fun '(var, _) =>
         (var, map (fun out => match assoc var out with
                               | Some row => row
                               | None => []
                               end) outs)) params.

Definition vmap (f : step_params -> hyperparams -> option (step_params * bool))
           (params : plan_params) (hp : hyperparams)
  : option (plan_params * list bool) :=
  match sequence (map (fun t => f (slice t params) hp) (seq 0 horizon)) with
  | None => None
  | Some outs => Some (stack params (map fst outs), map snd outs)
  end.

Definition sorting_project_to_max_constraint (params : plan_params)
           (hp : hyperparams) : option (plan_params * list bool) :=
  let '(params, _) := _jax_wrapped_slp_project_to_box params hp in
  vmap _jax_wrapped_sorting_project params hp.

(** *** SOGBOFA projection *)

Definition _jax_wrapped_sogbofa_surplus (params : step_params)
           (hp : hyperparams) : R :=
  let '(sum_action, count) :=
    fold_left (fun '(sum_action, count) '(var, param) =>
                 if is_bool var then
                   let action :=
                     map (fun x => _jax_bool_param_to_action var x hp) param in
                   if noop var then
                     (sum_action + (INR (List.length action) - sum action),
                      (count + count_true (map (fun a => ltb a 1) action))%nat)
                   else
                     (sum_action + sum action,
                      (count + count_true (map (fun a => gtb a 0) action))%nat)
                 else (sum_action, count))
              params (0, O) in
  let surplus := Rmax (sum_action - INR allowed_actions) 0 in
  let count := Nat.max count 1 in
  surplus / INR count.

(** The loop-carried tuple [(it, params, hyperparams, surplus)]. *)
Definition sogbofa_values := (nat * step_params * hyperparams * R)%type.

Definition _jax_wrapped_sogbofa_continue (values : sogbofa_values) : bool :=
  let '(it, _, _, surplus) := values in
  (it <? max_constraint_iter)%nat && gtb surplus 0.

Definition _jax_wrapped_sogbofa_subtract_surplus (values : sogbofa_values)
  : sogbofa_values :=
  let '(it, params, hp, surplus) := values in
  let new_params :=
    map (fun '(var, param) =>
           if is_bool var then
             (var, map (fun x =>
                          let action := _jax_bool_param_to_action var x hp in
                          let new_action :=
                            action + (if noop var then surplus else - surplus) in
                          let new_action := clip new_action min_action max_action in
                          _jax_bool_action_to_param var new_action hp) param)
           else (var, param)) params in
  let new_surplus := _jax_wrapped_sogbofa_surplus new_params hp in
  let new_it := S it in
  (new_it, new_params, hp, new_surplus).

(** The loop of [_jax_wrapped_sogbofa_project], with the exit tuple kept. *)
Definition sogbofa_loop (params : step_params) (hp : hyperparams)
  : option sogbofa_values :=
  let surplus := _jax_wrapped_sogbofa_surplus params hp in
  while_loop _jax_wrapped_sogbofa_continue
             _jax_wrapped_sogbofa_subtract_surplus
             max_constraint_iter (O, params, hp, surplus).

Definition _jax_wrapped_sogbofa_project (params : step_params)
           (hp : hyperparams) : option (step_params * bool) :=
  match sogbofa_loop params hp with
  | None => None
  | Some (_, params, _, surplus) =>
    let converged := negb (gtb surplus 0) in
    Some (params, converged)
  end.

Definition sogbofa_project_to_max_constraint (params : plan_params)
           (hp : hyperparams) : option (plan_params * list bool) :=
  let '(params, _) := _jax_wrapped_slp_project_to_box params hp in
  vmap _jax_wrapped_sogbofa_project params hp.

(** *** The projection that [compile] installs *)

(** [None] is the [RDDLNotImplementedError] of the softmax branch. *)
Definition compile_projection : option projection_kind :=
  if use_constraint_satisfaction && wrap_softmax then
    if (1 <? allowed_actions)%nat && (allowed_actions <? bool_action_count)%nat
    then None
    else Some project_to_box
  else if use_constraint_satisfaction && use_new_projection then
    Some sorting_project
  else if use_constraint_satisfaction && negb use_new_projection then
    Some sogbofa_project
  else Some project_to_box.

Definition projection (kind : projection_kind) (params : plan_params)
           (hp : hyperparams) : option (plan_params * list bool) :=
  match kind with
  | project_to_box => Some (_jax_wrapped_slp_project_to_box params hp)
  | sorting_project => sorting_project_to_max_constraint params hp
  | sogbofa_project => sogbofa_project_to_max_constraint params hp
  end.

(** Parameters shaped as the initializer makes them: one entry per action
    fluent, [horizon] rows each, a row having one value per grounding. *)
Definition well_shaped (params : plan_params) : Prop :=
  Forall2 (fun '(var, param) '(name, values) =>
             var = name /\
             List.length param = horizon /\
             Forall (fun row => List.length row = List.length values) param)
          params (action_fluents rddl).

End Compile.

(** *** Boolean wrapping: action -> parameter -> action *)

Section Wrapping.

Variable wrap_sigmoid : bool.
Variable min_action_prob : R.

Lemma sigmoid_logit (w a : R) :
  w <> 0 -> 0 < a < 1 ->
  sigmoid (w * (-1 / w * ln (1 / a - 1))) = a.
Proof.
  intros Hw [Ha0 Ha1]. unfold sigmoid.
  assert (Hq : 0 < 1 / a - 1).
  { assert (1 < 1 / a); [| lra].
    unfold Rdiv; rewrite Rmult_1_l.
    rewrite <- Rinv_1 at 1. apply Rinv_lt_contravar; lra. }
  replace (- (w * (-1 / w * ln (1 / a - 1)))) with (ln (1 / a - 1))
    by (field; exact Hw).
  rewrite exp_ln by exact Hq.
  field; lra.
Qed.

(** C6: in both wrapping modes the parameter-to-action map undoes the
    action-to-parameter map on every action strictly between
    [min_action_prob] and [1 - min_action_prob] (over the reals the round
    trip is exact). *)
Theorem bool_param_action_roundtrip (var : string) (hp : hyperparams) (a : R) :
  (wrap_sigmoid = true -> 0 < hp var) ->
  0 <= min_action_prob ->
  min_action min_action_prob < a < max_action min_action_prob ->
  _jax_bool_param_to_action wrap_sigmoid var
    (_jax_bool_action_to_param wrap_sigmoid var a hp) hp = a.
Proof.
  unfold max_action, min_action, _jax_bool_param_to_action,
    _jax_bool_action_to_param.
  intros Hw Hm Ha. destruct wrap_sigmoid; [| reflexivity].
  specialize (Hw eq_refl). cbv zeta.
  apply sigmoid_logit; [apply Rgt_not_eq; exact Hw | split; lra].
Qed.

End Wrapping.

Lemma bool_param_action_roundtrip_witness :
  _jax_bool_param_to_action true "a"
    (_jax_bool_action_to_param true "a" (1 / 2) (fun _ => 1)) (fun _ => 1)
  = 1 / 2 /\
  _jax_bool_param_to_action false "a"
    (_jax_bool_action_to_param false "a" (1 / 2) (fun _ => 1)) (fun _ => 1)
  = 1 / 2.
Proof.
  split.
  - apply (@bool_param_action_roundtrip true (1 / 1000000) "a" (fun _ => 1) (1 / 2));
      unfold max_action, min_action; intros; cbv beta; try split; lra.
  - apply (@bool_param_action_roundtrip false (1 / 1000000) "a" (fun _ => 1) (1 / 2));
      unfold max_action, min_action; intros; cbv beta; try split; lra.
Defined.

(** *** The SOGBOFA loop *)

Section Sogbofa.

Variable rddl : RDDLLiftedModel.
Variable wrap_sigmoid : bool.
Variable min_action_prob : R.
Variable max_constraint_iter : nat.

Local Abbreviation continue := (_jax_wrapped_sogbofa_continue max_constraint_iter).
Local Abbreviation subtract :=
  (_jax_wrapped_sogbofa_subtract_surplus rddl wrap_sigmoid min_action_prob).

Lemma subtract_counter it p h s :
  exists p' s', subtract (it, p, h, s) = (S it, p', h, s').
Proof. simpl; eauto. Qed.

Lemma sogbofa_loop_from (fuel : nat) :
  forall it p h s,
    (it + fuel = max_constraint_iter)%nat ->
    exists n p' s',
      while_loop continue subtract fuel (it, p, h, s) = Some ((it + n)%nat, p', h, s') /\
      (n <= fuel)%nat /\
      Nat.iter n subtract (it, p, h, s) = ((it + n)%nat, p', h, s') /\
      continue ((it + n)%nat, p', h, s') = false.
Proof.
  induction fuel as [|fuel IH]; intros it p h s Hit.
  - exists O, p, s. rewrite Nat.add_0_r in *.
    assert (Hc : continue (it, p, h, s) = false).
    { simpl. subst it. rewrite Nat.ltb_irrefl. reflexivity. }
    cbn [while_loop]. rewrite Hc. auto.
  - cbn [while_loop]. destruct (continue (it, p, h, s)) eqn:Hc.
    + destruct (subtract_counter it p h s) as (p1 & s1 & Hb).
      rewrite Hb.
      destruct (IH (S it) p1 h s1) as (n & p' & s' & Hw & Hn & Hi & Hx); [lia |].
      exists (S n), p', s'.
      replace (it + S n)%nat with (S it + n)%nat by lia.
      repeat split; [exact Hw | lia | | exact Hx].
      rewrite Nat.iter_succ_r, Hb. exact Hi.
    + exists O, p, s. rewrite Nat.add_0_r. cbn [Nat.iter nat_rect]. auto with arith.
Qed.

(** C4: the SOGBOFA projection runs its shift-reclip-recompute body [it]
    times with [it <= max_constraint_iter], always returns, and its converged
    flag is true exactly when the surplus at loop exit is not positive; it is
    false exactly when the cap was reached with a positive surplus. *)
Theorem sogbofa_project_bounded (params : step_params) (hp : hyperparams) :
  exists it params' surplus,
    sogbofa_loop rddl wrap_sigmoid min_action_prob max_constraint_iter params hp
    = Some (it, params', hp, surplus) /\
    (it <= max_constraint_iter)%nat /\
    Nat.iter it subtract
       (O, params, hp, _jax_wrapped_sogbofa_surplus rddl wrap_sigmoid params hp)
    = (it, params', hp, surplus) /\
    exists converged,
      _jax_wrapped_sogbofa_project rddl wrap_sigmoid min_action_prob
        max_constraint_iter params hp = Some (params', converged) /\
      (converged = true <-> ~ 0 < surplus) /\
      (converged = false <-> it = max_constraint_iter /\ 0 < surplus).
Proof.
  destruct (sogbofa_loop_from max_constraint_iter O params hp
              (_jax_wrapped_sogbofa_surplus rddl wrap_sigmoid params hp) eq_refl)
    as (n & p' & s' & Hw & Hn & Hi & Hx).
  rewrite Nat.add_0_l in Hw, Hi, Hx.
  exists n, p', s'. unfold _jax_wrapped_sogbofa_project, sogbofa_loop.
  rewrite Hw.
  repeat split; [exact Hn | exact Hi |].
  exists (negb (gtb s' 0)). split; [reflexivity |].
  unfold _jax_wrapped_sogbofa_continue in Hx.
  apply andb_false_iff in Hx.
  split; split.
  - intros H. apply negb_true_iff in H. apply gtb_false in H. lra.
  - intros H. apply negb_true_iff. apply gtb_false. lra.
  - intros H. apply negb_false_iff in H.
    split; [| apply gtb_true; exact H].
    destruct Hx as [Hx | Hx]; [| congruence].
    apply Nat.ltb_ge in Hx. lia.
  - intros [_ H]. apply negb_false_iff. apply gtb_true. exact H.
Qed.

End Sogbofa.

(** *** Sorting and stacking lemmas *)

Local Open Scope nat_scope.

Lemma insert_length x l : length (insert x l) = S (length l).
Proof.
  induction l as [|y l IH]; simpl; [reflexivity |].
  destruct (Rle_dec x y); simpl; [reflexivity | now rewrite IH].
Qed.

Lemma sort_length l : length (sort l) = length l.
Proof.
  induction l as [|x l IH]; simpl; [reflexivity |].
  now rewrite insert_length, IH.
Qed.

Lemma insert_perm x l : Permutation (x :: l) (insert x l).
Proof.
  induction l as [|y l IH]; simpl; [apply Permutation_refl |].
  destruct (Rle_dec x y); [apply Permutation_refl |].
  eapply perm_trans; [apply perm_swap | apply perm_skip, IH].
Qed.

Lemma sort_perm l : Permutation l (sort l).
Proof.
  induction l as [|x l IH]; simpl; [constructor |].
  eapply perm_trans; [apply perm_skip, IH | apply insert_perm].
Qed.

Lemma sequence_some {A} (l : list (option A)) :
  Forall (fun o => o <> None) l -> exists xs, sequence l = Some xs.
Proof.
  induction 1 as [|o l Ho _ IH]; simpl; [eauto |].
  destruct o as [x|]; [| congruence].
  destruct IH as [xs ->]; eauto.
Qed.

Lemma sequence_length {A} (l : list (option A)) xs :
  sequence l = Some xs -> length xs = length l.
Proof.
  revert xs; induction l as [|o l IH]; simpl; intros xs H.
  - now inversion H.
  - destruct o; [| discriminate].
    destruct (sequence l); [| discriminate].
    inversion H; subst; simpl; f_equal; now apply IH.
Qed.

Section SortingProjection.

Variable rddl : RDDLLiftedModel.
Variable horizon : nat.
Variable wrap_sigmoid : bool.
Variable min_action_prob : R.
Variable wrap_non_bool : bool.
Variable wrap_softmax : bool.
Variable use_new_projection : bool.
Variable bounds : string -> option R * option R.

Local Abbreviation K := (allowed_actions rddl).
Local Abbreviation scores_of := (sorting_scores rddl wrap_sigmoid).
Local Abbreviation box :=
  (_jax_wrapped_slp_project_to_box rddl wrap_sigmoid min_action_prob
     wrap_non_bool bounds).
Local Abbreviation sorting :=
  (_jax_wrapped_sorting_project rddl wrap_sigmoid min_action_prob).

(** The shape relation of [well_shaped], for any list of fluents. *)
Definition shaped (params : plan_params) (fluents : list (string * list bool)) :=
  Forall2 (fun '(var, param) '(name, values) =>
             var = name /\
             length param = horizon /\
             Forall (fun row => length row = length (A:=bool) values) param)
          params fluents.

Lemma box_shaped params fluents hp :
  shaped params fluents -> shaped (fst (box params hp)) fluents.
Proof.
  unfold shaped; simpl.
  induction 1 as [|[var param] [name values] ps fs (Hv & Hl & Hr) _ IH];
    simpl; constructor; try exact IH.
  assert (Hmap : forall g : R -> R,
             length (map (map g) param) = horizon /\
             Forall (fun row => length row = length values) (map (map g) param)).
  { intros g; split; [now rewrite length_map |].
    apply Forall_map. eapply Forall_impl; [| exact Hr].
    intros row Hrow; now rewrite length_map. }
  destruct (String.eqb var bool_key); [easy |].
  destruct (is_bool rddl var); [split; [easy | apply Hmap] |].
  destruct wrap_non_bool; [easy | split; [easy | apply Hmap]].
Qed.

Lemma scores_length params fluents t :
  shaped params fluents -> t < horizon ->
  length (concat (scores_of (slice t params)))
  = list_sum (map (fun '(var, values) =>
                     match variable_ranges rddl var with
                     | range_bool => length values
                     | _ => O
                     end) fluents).
Proof.
  intros H Ht.
  induction H as [|[var param] [name values] ps fs (Hv & Hl & Hr) _ IH];
    simpl; [reflexivity |].
  subst name. fold (slice t ps). unfold is_bool, ranges.
  assert (Hrow : length (nth t param []) = length values).
  { rewrite Forall_forall in Hr. apply Hr. apply nth_In. lia. }
  destruct (variable_ranges rddl var); simpl; try exact IH.
  rewrite length_app. f_equal; [| exact IH].
  destruct (noop rddl var); [destruct wrap_sigmoid |];
    rewrite ?length_map; exact Hrow.
Qed.

Lemma sorting_total sp hp :
  K < length (concat (scores_of sp)) ->
  exists scores k,
    concatenate (scores_of sp) = Some scores /\
    scores = concat (scores_of sp) /\
    nth_error (rev (sort scores)) K = Some k /\
    sorting sp hp <> None.
Proof.
  intros HK. unfold _jax_wrapped_sorting_project.
  destruct (scores_of sp) as [|s ss] eqn:E; [simpl in HK; lia |].
  cbn [concatenate].
  destruct (nth_error (rev (sort (concat (s :: ss)))) K) as [k|] eqn:Ek.
  - exists (concat (s :: ss)), k. repeat split; try easy.
  - apply nth_error_None in Ek.
    rewrite length_rev, sort_length in Ek. lia.
Qed.

(** C10: when [compile] installs the sort-based projection, the bound [K] is
    below the number of boolean action entries; hence on parameters of the
    compiled shape the score vector of every time step has that many entries,
    the index [K] into the sorted scores is in range, and the projection
    returns. *)
Theorem sorting_project_in_bounds (params : plan_params) (hp : hyperparams) :
  compile_projection rddl wrap_softmax use_new_projection = Some sorting_project ->
  well_shaped rddl horizon params ->
  K < bool_action_count rddl /\
  (forall t, t < horizon ->
     exists scores k,
       concatenate (scores_of (slice t (fst (box params hp)))) = Some scores /\
       length scores = bool_action_count rddl /\
       K < length (rev (sort scores)) /\
       nth_error (rev (sort scores)) K = Some k) /\
  exists out,
    projection rddl horizon wrap_sigmoid min_action_prob wrap_non_bool 0 bounds
      sorting_project params hp = Some out.
Proof.
  intros Hc Hs.
  assert (HK : K < bool_action_count rddl).
  { unfold compile_projection, use_constraint_satisfaction in Hc.
    destruct (K <? bool_action_count rddl) eqn:E;
      [now apply Nat.ltb_lt in E |].
    simpl in Hc. discriminate. }
  assert (Hlen : forall t, t < horizon ->
            length (concat (scores_of (slice t (fst (box params hp)))))
            = bool_action_count rddl).
  { intros t Ht. apply scores_length; [| exact Ht].
    apply box_shaped. exact Hs. }
  split; [exact HK |]. split.
  - intros t Ht.
    destruct (@sorting_total (slice t (fst (box params hp))) hp)
      as (scores & k & H1 & H2 & H3 & _); [rewrite Hlen; assumption |].
    exists scores, k. subst scores.
    rewrite length_rev, sort_length, Hlen by exact Ht. auto.
  - unfold projection, sorting_project_to_max_constraint, vmap.
    cbn [_jax_wrapped_slp_project_to_box].
    match goal with |- context [sequence ?l] =>
      destruct (@sequence_some _ l) as [outs Ho] end.
    + apply Forall_map, Forall_forall. intros t Ht.
      apply in_seq in Ht.
      destruct (@sorting_total (slice t (fst (box params hp))) hp)
        as (_ & _ & _ & _ & _ & H); [rewrite Hlen; lia |].
      exact H.
    + rewrite Ho. eauto.
Qed.

End SortingProjection.

(** *** Counting the entries above the (K+1)-th largest score *)

Lemma count_true_app m1 m2 :
  count_true (m1 ++ m2) = count_true m1 + count_true m2.
Proof. unfold count_true. now rewrite filter_app, length_app. Qed.

Lemma count_true_le_length m : count_true m <= length m.
Proof. unfold count_true. apply filter_length_le. Qed.

Lemma count_true_mono {A} (f g : A -> bool) l :
  (forall x, f x = true -> g x = true) ->
  count_true (map f l) <= count_true (map g l).
Proof.
  intros H. induction l as [|x l IH]; [apply Nat.le_refl |].
  unfold count_true in *. cbn [map filter].
  destruct (f x) eqn:Ef.
  - rewrite (H x Ef). cbn [length]. lia.
  - destruct (g x); cbn [length]; lia.
Qed.

Lemma count_true_none {A} (f : A -> bool) l :
  Forall (fun x => f x = false) l -> count_true (map f l) = 0.
Proof.
  induction 1 as [|x l Hx _ IH]; [reflexivity |].
  unfold count_true in *. cbn [map filter]. now rewrite Hx.
Qed.

Lemma count_true_perm {A} (f : A -> bool) l l' :
  Permutation l l' -> count_true (map f l) = count_true (map f l').
Proof.
  unfold count_true.
  induction 1 as [|x l l' _ IH|x y l|l l' l'' _ IH1 _ IH2]; cbn [map filter].
  - reflexivity.
  - destruct (f x); cbn [length]; now rewrite IH.
  - destruct (f x), (f y); reflexivity.
  - now rewrite IH1.
Qed.

Lemma insert_sorted x l :
  StronglySorted Rle l -> StronglySorted Rle (insert x l).
Proof.
  induction 1 as [|y l Hs IH Hy]; cbn [insert].
  - repeat constructor.
  - destruct (Rle_dec x y) as [Hle | Hnle].
    + constructor; [now constructor |].
      constructor; [exact Hle |].
      eapply Forall_impl; [| exact Hy]. intros z Hz. lra.
    + constructor; [exact IH |].
      eapply Permutation_Forall; [apply insert_perm |].
      constructor; [lra | exact Hy].
Qed.

Lemma sort_sorted l : StronglySorted Rle (sort l).
Proof.
  induction l as [|x l IH]; cbn; [constructor | now apply insert_sorted].
Qed.

Lemma sorted_prefix_le l1 k l2 :
  StronglySorted Rle (l1 ++ k :: l2) -> Forall (fun x => (x <= k)%R) l1.
Proof.
  induction l1 as [|x l1 IH]; cbn; intros H; [constructor |].
  inversion H as [|? ? Hs Hx]; subst. constructor; [| now apply IH].
  rewrite Forall_forall in Hx. apply Hx, in_elt.
Qed.

(** At most [K] entries are strictly above the entry at index [K] of the
    scores sorted in descending order. *)
Lemma count_above_kplus1st (scores : tensor) (K : nat) (k : R) :
  nth_error (rev (sort scores)) K = Some k ->
  count_true (map (fun x => gtb x k) scores) <= K.
Proof.
  intros Hk.
  destruct (nth_error_split _ _ Hk) as (d1 & d2 & Hd & Hlen).
  assert (Ha : sort scores = rev d2 ++ k :: rev d1).
  { rewrite <- (rev_involutive (sort scores)), Hd, rev_app_distr.
    cbn [rev]. now rewrite <- app_assoc. }
  rewrite (count_true_perm _ (sort_perm scores)), Ha.
  rewrite map_app, count_true_app.
  rewrite count_true_none.
  - cbn [map]. change (?a :: ?l) with ([a] ++ l).
    rewrite count_true_app.
    assert (Hkk : gtb k k = false) by (apply gtb_false; lra).
    unfold count_true at 1. cbn [filter]. rewrite Hkk. cbn [length].
    pose proof (count_true_le_length (map (fun x => gtb x k) (rev d1))) as Hle.
    rewrite length_map, length_rev in Hle. lia.
  - pose proof (sort_sorted scores) as Hs. rewrite Ha in Hs.
    apply sorted_prefix_le in Hs.
    eapply Forall_impl; [| exact Hs]. intros x Hx. now apply gtb_false.
Qed.

(** *** Stacking the per-step outputs *)

Lemma assoc_in {A} (d : list (string * A)) k v :
  NoDup (map fst d) -> In (k, v) d -> assoc k d = Some v.
Proof.
  induction d as [|[k0 v0] d IH]; cbn [assoc map fst]; intros Hnd Hin;
    [contradiction |].
  inversion Hnd as [|? ? Hk0 Hnd']; subst.
  destruct (String.eqb k0 k) eqn:E.
  - apply String.eqb_eq in E; subst k0.
    destruct Hin as [Hin | Hin]; [congruence |].
    exfalso. apply Hk0. apply (in_map fst) in Hin. exact Hin.
  - destruct Hin as [Hin | Hin]; [| now apply IH].
    inversion Hin; subst. now rewrite String.eqb_refl in E.
Qed.

Lemma sequence_map_nth {A B} (f : A -> option B) ts outs n out :
  sequence (map f ts) = Some outs ->
  nth_error outs n = Some out ->
  exists t, nth_error ts n = Some t /\ f t = Some out.
Proof.
  revert outs n; induction ts as [|t ts IH]; cbn [map sequence];
    intros outs n Hs Hn.
  - inversion Hs; subst. destruct n; discriminate.
  - destruct (f t) as [o|] eqn:Ef; [| discriminate].
    destruct (sequence (map f ts)) as [os|] eqn:Es; [| discriminate].
    inversion Hs; subst. destruct n as [|n]; cbn [nth_error] in *.
    + inversion Hn; subst. eauto.
    + eapply IH; eauto.
Qed.

Lemma slice_keys t (params : plan_params) :
  map fst (slice t params) = map fst params.
Proof.
  unfold slice. rewrite map_map. apply map_ext. now intros [var param].
Qed.

Lemma stack_slice (params : plan_params) (outs : list step_params) t out :
  NoDup (map fst params) ->
  nth_error outs t = Some out ->
  map fst out = map fst params ->
  slice t (stack params outs) = out.
Proof.
  intros Hnd Hn Hk. unfold slice, stack. rewrite map_map.
  set (look := fun var : string =>
                 match assoc var out with Some row => row | None => [] end).
  transitivity (map (fun k => (k, look k)) (map fst params)).
  - rewrite map_map. apply map_ext. intros [var param]. cbn [fst]. f_equal.
    apply nth_error_nth. unfold look. exact (map_nth_error _ t outs Hn).
  - rewrite <- Hk, map_map. rewrite <- (map_id out) at 2.
    apply map_ext_in. intros [k v] Hin. cbn [fst]. unfold look.
    rewrite (@assoc_in _ out k v); [reflexivity | now rewrite Hk | exact Hin].
Qed.

(** *** The sort-based projection when every no-op is false *)

Section SortingBound.

Variable rddl : RDDLLiftedModel.
Variable horizon : nat.
Variable wrap_sigmoid : bool.
Variable min_action_prob : R.
Variable wrap_non_bool : bool.
Variable bounds : string -> option R * option R.
Variable hp : hyperparams.

Hypothesis noop_false :
  forall var, is_bool rddl var = true -> noop rddl var = false.
Hypothesis weights_positive : forall var, (0 < hp var)%R.
Hypothesis min_prob : (0 < min_action_prob < 1 / 2)%R.

Local Abbreviation K := (allowed_actions rddl).
Local Abbreviation thr := (bool_threshold wrap_sigmoid).
Local Abbreviation to_box :=
  (_jax_project_bool_to_box wrap_sigmoid min_action_prob).
Local Abbreviation box :=
  (_jax_wrapped_slp_project_to_box rddl wrap_sigmoid min_action_prob
     wrap_non_bool bounds).
Local Abbreviation sorting :=
  (_jax_wrapped_sorting_project rddl wrap_sigmoid min_action_prob).

Lemma clip_side (y lo hi t : R) :
  (lo <= t < hi)%R -> gtb (clip y lo hi) t = gtb y t.
Proof.
  intros H. unfold clip, Rmin, Rmax, gtb.
  repeat destruct Rle_dec; repeat destruct Rlt_dec; try reflexivity; lra.
Qed.

(** The box of a boolean parameter has the threshold inside, so clipping
    does not move a parameter across it. *)
Lemma box_keeps_side var y : gtb (to_box var y hp) thr = gtb y thr.
Proof.
  unfold _jax_project_bool_to_box, _jax_bool_action_to_param, max_action,
    min_action, bool_threshold.
  destruct min_prob as [Hm0 Hm1]. apply clip_side.
  destruct wrap_sigmoid; [| lra].
  cbv zeta. pose proof (weights_positive var) as Hw.
  assert (Hiw : (0 < / hp var)%R) by now apply Rinv_0_lt_compat.
  assert (Hlo : (0 < ln (1 / min_action_prob - 1))%R).
  { rewrite <- ln_1. apply ln_increasing; [lra |].
    pose proof (Rinv_0_lt_compat _ Hm0) as Hi.
    pose proof (Rinv_r min_action_prob ltac:(lra)) as Hr.
    unfold Rdiv. nra. }
  assert (Hhi : (ln (1 / (1 - min_action_prob) - 1) < 0)%R).
  { pose proof (Rinv_0_lt_compat (1 - min_action_prob) ltac:(lra)) as Hi.
    pose proof (Rinv_r (1 - min_action_prob) ltac:(lra)) as Hr.
    rewrite <- ln_1. apply ln_increasing; unfold Rdiv; nra. }
  unfold Rdiv. split; nra.
Qed.

(** Entries of one time step whose test action differs from the no-op. *)
Definition step_active (sp : step_params) : nat :=
  list_sum (map (fun '(var, row) =>
                   if is_bool rddl var then
                     count_true
                       (map (fun x => negb (Bool.eqb (gtb x thr) (noop rddl var)))
                            row)
                   else 0) sp).

Lemma predict_count (params : plan_params) t :
  count_non_noop rddl (_jax_wrapped_slp_predict_test rddl wrap_sigmoid params t)
  = step_active (slice t params).
Proof.
  unfold count_non_noop, _jax_wrapped_slp_predict_test, step_active, slice.
  induction params as [|[var param] ps IH]; [reflexivity |].
  cbn [flat_map map]. rewrite map_app, list_sum_app, IH.
  destruct (is_bool rddl var); unfold list_sum; cbn [map app fold_right];
    [| reflexivity].
  rewrite map_map. lia.
Qed.

Lemma shifted_active_le (k : R) (sp : step_params) :
  let surplus := Rmax (k - thr) 0 in
  step_active
    (map (fun '(var, param) =>
            if is_bool rddl var then
              (var, map (fun x => to_box var
                                    (x + (if noop rddl var then surplus
                                          else - surplus)) hp) param)
            else (var, param)) sp)
  <= count_true (map (fun x => gtb x k)
                     (concat (sorting_scores rddl wrap_sigmoid sp))).
Proof.
  intros surplus. unfold step_active.
  induction sp as [|[var param] sp IH]; [apply Nat.le_refl |].
  cbn [map list_sum sorting_scores flat_map].
  fold (sorting_scores rddl wrap_sigmoid sp).
  destruct (is_bool rddl var) eqn:Eb; cbn [app concat]; rewrite Eb;
    match goal with
    | |- list_sum (?a :: ?l) <= _ => change (list_sum (a :: l)) with (a + list_sum l)
    end; [| exact IH].
  rewrite (noop_false _ Eb), map_app, count_true_app, map_map.
  apply Nat.add_le_mono; [| exact IH].
  apply count_true_mono. intros x Hx.
  rewrite box_keeps_side in Hx.
  destruct (gtb (x + - surplus) thr) eqn:Eg; [| discriminate].
  apply gtb_true in Eg. apply gtb_true.
  pose proof (Rmax_l (k - thr) 0). fold surplus in H. lra.
Qed.

Lemma sorting_step_bound sp sp' b :
  sorting sp hp = Some (sp', b) ->
  b = true /\ map fst sp' = map fst sp /\ step_active sp' <= K.
Proof.
  unfold _jax_wrapped_sorting_project.
  destruct (concatenate (sorting_scores rddl wrap_sigmoid sp))
    as [scores|] eqn:Ec; [| discriminate].
  destruct (nth_error (rev (sort scores)) K) as [k|] eqn:Ek; [| discriminate].
  intros H; inversion H; subst; clear H.
  split; [reflexivity |]. split.
  - rewrite map_map. apply map_ext. intros [var param].
    now destruct (is_bool rddl var).
  - assert (Hs : scores = concat (sorting_scores rddl wrap_sigmoid sp)).
    { unfold concatenate in Ec.
      destruct (sorting_scores rddl wrap_sigmoid sp); [discriminate |].
      now inversion Ec. }
    eapply Nat.le_trans; [apply shifted_active_le |].
    rewrite <- Hs. now apply count_above_kplus1st.
Qed.

Lemma box_keys (params : plan_params) :
  map fst (fst (box params hp)) = map fst params.
Proof.
  cbn [_jax_wrapped_slp_project_to_box fst]. rewrite map_map.
  apply map_ext. intros [var param].
  destruct (String.eqb var bool_key); [reflexivity |].
  destruct (is_bool rddl var); [reflexivity |].
  now destruct wrap_non_bool.
Qed.

(** X26: for plans whose boolean actions all default to false the sort-based
    projection does what its comment says: it reports success on every time
    step, and afterwards at most [K] boolean entries of any time step have a
    test action that differs from the no-op. *)
Theorem sorting_project_bound_noop_false (params params' : plan_params)
        (converged : list bool) :
  NoDup (map fst params) ->
  projection rddl horizon wrap_sigmoid min_action_prob wrap_non_bool 0 bounds
    sorting_project params hp = Some (params', converged) ->
  forallb (fun b => b) converged = true /\
  forall t, t < horizon ->
    count_non_noop rddl
      (_jax_wrapped_slp_predict_test rddl wrap_sigmoid params' t) <= K.
Proof.
  intros Hnd. unfold projection, sorting_project_to_max_constraint.
  destruct (box params hp) as [boxed flag] eqn:Ebox.
  assert (Hkeys : map fst boxed = map fst params).
  { rewrite <- (box_keys params). now rewrite Ebox. }
  unfold vmap.
  destruct (sequence _) as [outs|] eqn:Es; [| discriminate].
  intros H; inversion H; subst; clear H.
  assert (Hout : forall n out, nth_error outs n = Some out ->
            sorting (slice n boxed) hp = Some out /\ n < horizon).
  { intros n out Hn.
    destruct (sequence_map_nth _ _ _ Es Hn) as (t & Ht & Hf).
    rewrite nth_error_seq in Ht.
    destruct (n <? horizon) eqn:E; [| discriminate].
    apply Nat.ltb_lt in E. inversion Ht; subst. auto. }
  split.
  - apply forallb_forall. intros b Hb.
    apply in_map_iff in Hb. destruct Hb as ([sp' b'] & <- & Hin).
    apply In_nth_error in Hin. destruct Hin as (n & Hn).
    destruct (Hout _ _ Hn) as (Hs & _).
    now destruct (sorting_step_bound _ Hs).
  - intros t Ht. rewrite predict_count.
    assert (Hlen : length outs = horizon).
    { apply sequence_length in Es. now rewrite length_map, length_seq in Es. }
    destruct (nth_error outs t) as [[sp' b]|] eqn:Hn;
      [| apply nth_error_None in Hn; lia].
    destruct (Hout _ _ Hn) as (Hs & _).
    destruct (sorting_step_bound _ Hs) as (_ & Hk & Hb).
    rewrite (@stack_slice boxed (map fst outs) t sp').
    + exact Hb.
    + now rewrite Hkeys.
    + exact (map_nth_error fst t outs Hn).
    + now rewrite Hk, slice_keys.
Qed.

End SortingBound.

(** *** A plan whose boolean action defaults to true *)

Local Open Scope R_scope.

Definition rddl_noop_true : RDDLLiftedModel :=
  {| action_fluents := [("a"%string, [true; true])];
     variable_ranges := fun _ => range_bool;
     max_allowed_actions := 1 |}.

Definition unbounded : string -> option R * option R := fun _ => (None, None).
Definition unit_weights : hyperparams := fun _ => 1.

Lemma ln_999999_ge_2 : 2 <= ln 999999.
Proof.
  assert (H : exp 2 < 999999).
  { replace 2 with (1 + 1) by lra. rewrite exp_plus.
    pose proof exp_le_3. pose proof (exp_pos 1). nra. }
  apply ln_increasing in H; [| apply exp_pos].
  rewrite ln_exp in H. lra.
Qed.

Lemma box_id_unit_weight (var : string) (x : R) :
  -2 <= x <= 2 ->
  _jax_project_bool_to_box true (1 / 1000000) var x unit_weights = x.
Proof.
  intros Hx.
  unfold _jax_project_bool_to_box, _jax_bool_action_to_param, max_action,
    min_action, unit_weights, clip.
  cbv zeta.
  replace (1 / (1 / 1000000) - 1) with 999999 by field.
  replace (1 / (1 - 1 / 1000000) - 1) with (/ 999999) by field.
  rewrite ln_Rinv by lra.
  pose proof ln_999999_ge_2.
  rewrite Rmax_left by lra. rewrite Rmin_left by lra. reflexivity.
Qed.

Lemma sort_descending_pair (a b : R) :
  b < a -> rev (sort [a; b]) = [a; b].
Proof.
  intros H. simpl. destruct (Rle_dec a b); [lra | reflexivity].
Qed.

(** C1 at a failing input.  One boolean action with two groundings whose
    default is true, [K = 1], sigmoid wrapping with weight 1, horizon 1 and
    parameters [[-2; -1]]: [compile] installs the sort-based projection, the
    projection reports success and returns [[-1; 0]], and the test policy then
    gives [false] for both entries, so two entries differ from their no-op
    value although only one is allowed. *)
Theorem sorting_project_noop_true_exceeds :
  compile_projection rddl_noop_true false true = Some sorting_project /\
  allowed_actions rddl_noop_true = 1%nat /\
  projection rddl_noop_true 1 true (1 / 1000000) false 0 unbounded
    sorting_project [("a"%string, [[-2; -1]])] unit_weights
  = Some ([("a"%string, [[-1; 0]])], [true]) /\
  _jax_wrapped_slp_predict_test rddl_noop_true true [("a"%string, [[-1; 0]])] 0
  = [("a"%string, [false; false])] /\
  count_non_noop rddl_noop_true [("a"%string, [false; false])] = 2%nat.
Proof.
  split; [reflexivity |]. split; [reflexivity |]. split; [| split].
  - unfold projection, sorting_project_to_max_constraint, vmap.
    cbn [_jax_wrapped_slp_project_to_box map fst snd String.eqb Ascii.eqb
         Bool.eqb bool_key is_bool ranges variable_ranges rddl_noop_true].
    rewrite !box_id_unit_weight by lra.
    cbn [seq map slice nth].
    unfold _jax_wrapped_sorting_project.
    cbn [sorting_scores flat_map app is_bool ranges variable_ranges
         rddl_noop_true noop assoc action_fluents String.eqb Ascii.eqb
         Bool.eqb concatenate concat map].
    rewrite sort_descending_pair by lra.
    cbn [nth_error allowed_actions _count_bool_actions snd max_allowed_actions
         rddl_noop_true bool_threshold].
    replace (Rmax (- (-1) - 0) 0) with 1 by (rewrite Rmax_left; lra).
    replace (-2 + 1) with (-1) by lra.
    replace (-1 + 1) with 0 by lra.
    rewrite !box_id_unit_weight by lra.
    cbn [sequence map fst snd stack assoc String.eqb Ascii.eqb Bool.eqb].
    reflexivity.
  - unfold _jax_wrapped_slp_predict_test.
    cbn [flat_map app is_bool ranges variable_ranges rddl_noop_true nth map
         bool_threshold].
    assert (H1 : gtb (-1) 0 = false) by (apply gtb_false; lra).
    assert (H2 : gtb 0 0 = false) by (apply gtb_false; lra).
    rewrite H1, H2. reflexivity.
  - reflexivity.
Qed.

Lemma sorting_project_in_bounds_witness :
  compile_projection rddl_noop_true false true = Some sorting_project /\
  well_shaped rddl_noop_true 1 [("a"%string, [[-2; -1]])] /\
  (allowed_actions rddl_noop_true < bool_action_count rddl_noop_true)%nat /\
  exists out,
    projection rddl_noop_true 1 true (1 / 1000000) false 0 unbounded
      sorting_project [("a"%string, [[-2; -1]])] unit_weights = Some out.
Proof.
  assert (Hc : compile_projection rddl_noop_true false true = Some sorting_project)
    by reflexivity.
  assert (Hs : well_shaped rddl_noop_true 1 [("a"%string, [[-2; -1]])]).
  { unfold well_shaped; simpl. repeat constructor. }
  split; [exact Hc |]. split; [exact Hs |].
  destruct (@sorting_project_in_bounds rddl_noop_true 1 true (1 / 1000000)
              false false true unbounded [("a"%string, [[-2; -1]])]
              unit_weights Hc Hs) as (HK & _ & Hout).
  split; [exact HK | exact Hout].
Defined.

End SLP.

(** ** The optimization driver: [JaxBackpropPlanner.optimize_generator] *)

Module Planner.
Import PrimFloat.

Set Warnings "-inexact-float".

Inductive JaxPlannerStatus :=
| NORMAL
| NO_PROGRESS
| PRECONDITION_POSSIBLY_UNSATISFIED
| TIME_BUDGET_REACHED
| ITER_BUDGET_REACHED
| INVALID_GRADIENT.

Definition value (s : JaxPlannerStatus) : nat :=
  match s with
  | NORMAL => 0
  | NO_PROGRESS => 1
  | PRECONDITION_POSSIBLY_UNSATISFIED => 2
  | TIME_BUDGET_REACHED => 3
  | ITER_BUDGET_REACHED => 4
  | INVALID_GRADIENT => 5
  end.

Definition is_failure (s : JaxPlannerStatus) : bool := 3 <=? value s.

(** *** numpy helpers on binary64 floats *)

Definition np_isfinite (x : float) : bool := negb (is_nan x || is_infinity x).

(** [np.allclose(x, 0)]: every entry has [|a - b| <= atol + rtol * |b|]
    with [b = 0], [atol = 1e-8] and [rtol = 1e-5]. *)
Definition np_allclose_zero (x : list float) : bool :=
  forallb (fun a => (abs (a - 0) <=? 1e-8 + 1e-5 * abs 0)%float) x.

Definition np_all (mask : list bool) : bool := forallb (fun b => b) mask.

(** A gradient is a dictionary of float arrays. *)
Definition Grad := list (string * list float).

(** [np.all(tree_flatten(tree_map(lambda x: np.allclose(x, 0), grad)))] *)
Definition grad_norm_zero (grad : Grad) : bool :=
  np_all (map (fun '(_, x) => np_allclose_zero x) grad).

(** The length of a list as a float. *)
Definition float_of_nat (n : nat) : float :=
  Nat.iter n (fun x => (x + 1)%float) 0%float.

(** *** [RollingMean]; the window holds at least one value *)

Record RollingMean := {
  _window_size : positive;
  _memory : list float;
  _total : float
}.

Definition RollingMean_init (window_size : positive) : RollingMean :=
  {| _window_size := window_size; _memory := []; _total := 0%float |}.

Definition RollingMean_update (self : RollingMean) (x : float)
  : float * RollingMean :=
  let memory := _memory self in
  let total := (_total self + x)%float in
  let '(total, memory) :=
    if length memory =? Pos.to_nat (_window_size self) then
      match memory with
      | oldest :: rest => ((total - oldest)%float, rest)
      | [] => (total, memory)
      end
    else (total, memory) in
  let memory := memory ++ [x] in
  ((total / float_of_nat (length memory))%float,
   {| _window_size := _window_size self; _memory := memory; _total := total |}).

(** *** The status of one iteration, as the loop body assigns it *)

Definition iteration_status (converged : list bool) (elapsed train_seconds : float)
           (it epochs : nat) (train_loss : float) (grad : Grad)
  : JaxPlannerStatus :=
  let status := NORMAL in
  let status :=
    if negb (np_all converged) then PRECONDITION_POSSIBLY_UNSATISFIED
    else status in
  let status :=
    if (train_seconds <=? elapsed)%float then TIME_BUDGET_REACHED else status in
  let status :=
    if epochs - 1 <=? it then ITER_BUDGET_REACHED else status in
  let status :=
    if negb (np_isfinite train_loss) then INVALID_GRADIENT else status in
  let status :=
    if grad_norm_zero grad then NO_PROGRESS else status in
  status.

(** The same decision as the specification words it: the first halting
    condition that holds, in the order time, iterations, loss, gradient. *)
Definition status_first_match (converged : list bool)
           (elapsed train_seconds : float) (it epochs : nat)
           (train_loss : float) (grad : Grad) : JaxPlannerStatus :=
  if (train_seconds <=? elapsed)%float then TIME_BUDGET_REACHED
  else if epochs - 1 <=? it then ITER_BUDGET_REACHED
  else if negb (np_isfinite train_loss) then INVALID_GRADIENT
  else if grad_norm_zero grad then NO_PROGRESS
  else if np_all converged then NORMAL
  else PRECONDITION_POSSIBLY_UNSATISFIED.

Section Optimize.

(** The compiled functions of a planner instance; the hyper-parameters, the
    batched initial values and the model parameters do not change during a
    call and are part of these closures. *)
Variables Key Params OptState Updates Log : Type.
Variable split2 : Key -> Key * Key.
Variable split4 : Key -> Key * Key * Key * Key.
Variable initializer : Key -> Params.
Variable optimizer_init : Params -> OptState.
Variable grad_fn : Key -> Params -> Grad * Log.
Variable optimizer_update : Grad -> OptState -> Updates * OptState.
Variable apply_updates : Params -> Updates -> Params.
Variable projection : Params -> Params * list bool.
Variable train_loss_fn : Key -> Params -> float.
Variable test_loss_fn : Key -> Params -> float * Log.
(** [clock n] is what the [n]-th call of [time.time()] returns. *)
Variable clock : nat -> float.

Record train_log_t := {
  log_aux : Log;
  log_grad : Grad;
  log_updates : Updates
}.

(** [_jax_update]: gradient, optimizer step, projection. *)
Definition _jax_wrapped_plan_update (key : Key) (policy_params : Params)
           (opt_state : OptState)
  : Params * list bool * OptState * train_log_t :=
  let '(grad, log) := grad_fn key policy_params in
  let '(updates, opt_state) := optimizer_update grad opt_state in
  let policy_params := apply_updates policy_params updates in
  let '(policy_params, converged) := projection policy_params in
  (policy_params, converged, opt_state,
   {| log_aux := log; log_grad := grad; log_updates := updates |}).

(** The variables that live across iterations. *)
Record loop_state := {
  ls_it : nat;
  ls_key : Key;
  ls_policy_params : Params;
  ls_opt_state : OptState;
  ls_best_params : Params;
  ls_best_loss : float;
  ls_best_grad : option Grad;
  ls_last_iter_improve : nat;
  ls_rolling_test_loss : RollingMean;
  ls_start_time : float;
  ls_elapsed_outside_loop : float;
  ls_clock_reads : nat;
  ls_broke : bool
}.

(** The local variables of one iteration at its [yield]. *)
Record iteration := {
  it_index : nat;
  it_key : Key;
  it_policy_params : Params;
  it_converged : list bool;
  it_opt_state : OptState;
  it_train_log : train_log_t;
  it_train_loss : float;
  it_test_loss : float;
  it_log : Log;
  it_rolling_test_loss : RollingMean;
  it_best_params : Params;
  it_best_loss : float;
  it_best_grad : option Grad;
  it_last_iter_improve : nat;
  it_elapsed : float;
  it_status : JaxPlannerStatus
}.

(** The dictionary that an iteration yields. *)
Record callback := {
  status : JaxPlannerStatus;
  iteration_index : nat;
  train_return : float;
  test_return : float;
  best_return : float;
  params : Params;
  best_params : Params;
  last_iteration_improved : nat;
  grad : Grad;
  best_grad : option Grad;
  updates : Updates;
  elapsed_time : float;
  key : Key;
  log : Log
}.

Section Call.

Variable epochs : nat.
Variable train_seconds : float.
Variable guess : option Params.
Variable test_rolling_window : positive.

(** Before the loop. *)
Definition loop_init (key : Key) : loop_state :=
  let start_time := clock 0 in
  let elapsed_outside_loop := 0%float in
  let '(key, policy_params, opt_state) :=
    match guess with
    | None =>
      let '(key, subkey) := split2 key in
      let policy_params := initializer subkey in
      (key, policy_params, optimizer_init policy_params)
    | Some guess => (key, guess, optimizer_init guess)
    end in
  {| ls_it := 0;
     ls_key := key;
     ls_policy_params := policy_params;
     ls_opt_state := opt_state;
     ls_best_params := policy_params;
     ls_best_loss := infinity;
     ls_best_grad := None;
     ls_last_iter_improve := 0;
     ls_rolling_test_loss := RollingMean_init test_rolling_window;
     ls_start_time := start_time;
     ls_elapsed_outside_loop := elapsed_outside_loop;
     ls_clock_reads := 1;
     ls_broke := false |}.

(** The loop body up to the [yield]. *)
Definition loop_body (s : loop_state) : iteration :=
  let it := ls_it s in
  let '(key, subkey1, subkey2, subkey3) := split4 (ls_key s) in
  let '(policy_params, converged, opt_state, train_log) :=
    _jax_wrapped_plan_update subkey1 (ls_policy_params s) (ls_opt_state s) in
  let train_loss := train_loss_fn subkey2 policy_params in
  let '(test_loss, log) := test_loss_fn subkey3 policy_params in
  let '(test_loss, rolling_test_loss) :=
    RollingMean_update (ls_rolling_test_loss s) test_loss in
  let '(best_params, best_loss, best_grad, last_iter_improve) :=
    if (test_loss <? ls_best_loss s)%float then
      (policy_params, test_loss, Some (log_grad train_log), it)
    else
      (ls_best_params s, ls_best_loss s, ls_best_grad s,
       ls_last_iter_improve s) in
  let elapsed :=
    (clock (ls_clock_reads s) - ls_start_time s - ls_elapsed_outside_loop s)%float in
  let status :=
    iteration_status converged elapsed train_seconds it epochs train_loss
      (log_grad train_log) in
  {| it_index := it;
     it_key := key;
     it_policy_params := policy_params;
     it_converged := converged;
     it_opt_state := opt_state;
     it_train_log := train_log;
     it_train_loss := train_loss;
     it_test_loss := test_loss;
     it_log := log;
     it_rolling_test_loss := rolling_test_loss;
     it_best_params := best_params;
     it_best_loss := best_loss;
     it_best_grad := best_grad;
     it_last_iter_improve := last_iter_improve;
     it_elapsed := elapsed;
     it_status := status |}.

Definition yielded (l : iteration) : callback :=
  {| status := it_status l;
     iteration_index := it_index l;
     train_return := (- it_train_loss l)%float;
     test_return := (- it_test_loss l)%float;
     best_return := (- it_best_loss l)%float;
     params := it_policy_params l;
     best_params := it_best_params l;
     last_iteration_improved := it_last_iter_improve l;
     grad := log_grad (it_train_log l);
     best_grad := it_best_grad l;
     updates := log_updates (it_train_log l);
     elapsed_time := it_elapsed l;
     key := it_key l;
     log := it_log l |}.

(** After the [yield]: the time spent outside is added up, and a failure
    status breaks out of the loop. *)
Definition loop_resume (s : loop_state) (l : iteration) : loop_state :=
  let start_time_outside := clock (S (ls_clock_reads s)) in
  let elapsed_outside_loop :=
    (ls_elapsed_outside_loop s
     + (clock (S (S (ls_clock_reads s))) - start_time_outside))%float in
  {| ls_it := S (it_index l);
     ls_key := it_key l;
     ls_policy_params := it_policy_params l;
     ls_opt_state := it_opt_state l;
     ls_best_params := it_best_params l;
     ls_best_loss := it_best_loss l;
     ls_best_grad := it_best_grad l;
     ls_last_iter_improve := it_last_iter_improve l;
     ls_rolling_test_loss := it_rolling_test_loss l;
     ls_start_time := ls_start_time s;
     ls_elapsed_outside_loop := elapsed_outside_loop;
     ls_clock_reads := S (S (S (ls_clock_reads s)));
     ls_broke := is_failure (it_status l) |}.

(** One resumption of the generator: [None] when it is exhausted. *)
Definition generator_next (s : loop_state) : option (iteration * loop_state) :=
  if ls_broke s then None
  else if epochs <=? ls_it s then None
  else let l := loop_body s in Some (l, loop_resume s l).

(** The iterations a consumer sees when it drains the generator. *)
Fixpoint drain (fuel : nat) (s : loop_state) : list iteration :=
  match fuel with
  | O => []
  | S fuel' =>
    match generator_next s with
    | None => []
    | Some (l, s') => l :: drain fuel' s'
    end
  end.

(** [range(epochs)] bounds the number of iterations. *)
Definition optimize_trace (key : Key) : list iteration :=
  drain epochs (loop_init key).

Definition optimize_generator (key : Key) : list callback :=
  map yielded (optimize_trace key).

(** [optimize]: the last callback, [deque(it, maxlen=1).pop()], which fails
    on an empty generator, and of it the best parameters. *)
Definition optimize_callback (key : Key) : option callback :=
  last (map Some (optimize_generator key)) None.

Definition optimize (key : Key) : option Params :=
  option_map best_params (optimize_callback key).

End Call.
End Optimize.

(** *** Properties of the status decision *)

Lemma is_failure_iff (s : JaxPlannerStatus) :
  is_failure s = true <->
  In s [TIME_BUDGET_REACHED; ITER_BUDGET_REACHED; INVALID_GRADIENT].
Proof.
  destruct s; cbv; split; intros H;
    try reflexivity; try discriminate; intuition discriminate.
Qed.

Lemma not_failure_iff (s : JaxPlannerStatus) :
  is_failure s = false <->
  In s [NORMAL; NO_PROGRESS; PRECONDITION_POSSIBLY_UNSATISFIED].
Proof.
  destruct s; cbv; split; intros H;
    try reflexivity; try discriminate; intuition discriminate.
Qed.

(** The later assignment wins: with a gradient that is not all zero the
    status is decided by the loss, then the iteration count, then the time. *)
Lemma iteration_status_last_match converged elapsed train_seconds it epochs
      train_loss grad :
  grad_norm_zero grad = false ->
  iteration_status converged elapsed train_seconds it epochs train_loss grad
  = if negb (np_isfinite train_loss) then INVALID_GRADIENT
    else if epochs - 1 <=? it then ITER_BUDGET_REACHED
    else if (train_seconds <=? elapsed)%float then TIME_BUDGET_REACHED
    else if np_all converged then NORMAL
    else PRECONDITION_POSSIBLY_UNSATISFIED.
Proof.
  intros Hg. unfold iteration_status. rewrite Hg.
  destruct (negb (np_isfinite train_loss)), (epochs - 1 <=? it),
    (train_seconds <=? elapsed)%float, (np_all converged); reflexivity.
Qed.

Lemma iteration_status_no_progress converged elapsed train_seconds it epochs
      train_loss grad :
  grad_norm_zero grad = true ->
  iteration_status converged elapsed train_seconds it epochs train_loss grad
  = NO_PROGRESS.
Proof. intros Hg. unfold iteration_status. now rewrite Hg. Qed.

Section OptimizeFacts.

Variables Key Params OptState Updates Log : Type.
Variable split2 : Key -> Key * Key.
Variable split4 : Key -> Key * Key * Key * Key.
Variable initializer : Key -> Params.
Variable optimizer_init : Params -> OptState.
Variable grad_fn : Key -> Params -> Grad * Log.
Variable optimizer_update : Grad -> OptState -> Updates * OptState.
Variable apply_updates : Params -> Updates -> Params.
Variable projection : Params -> Params * list bool.
Variable train_loss_fn : Key -> Params -> float.
Variable test_loss_fn : Key -> Params -> float * Log.
Variable clock : nat -> float.
Variable epochs : nat.
Variable train_seconds : float.
Variable guess : option Params.
Variable test_rolling_window : positive.

Local Abbreviation body :=
  (loop_body split4 grad_fn optimizer_update apply_updates projection
     train_loss_fn test_loss_fn clock epochs train_seconds).
Local Abbreviation resume := (loop_resume (Updates:=Updates) clock).
Local Abbreviation next :=
  (generator_next split4 grad_fn optimizer_update apply_updates projection
     train_loss_fn test_loss_fn clock epochs train_seconds).
Local Abbreviation drained :=
  (drain split4 grad_fn optimizer_update apply_updates projection
     train_loss_fn test_loss_fn clock epochs train_seconds).
Local Abbreviation init :=
  (loop_init split2 initializer optimizer_init clock guess test_rolling_window).
Local Abbreviation trace :=
  (optimize_trace split2 split4 initializer optimizer_init grad_fn
     optimizer_update apply_updates projection train_loss_fn test_loss_fn
     clock epochs train_seconds guess test_rolling_window).
Local Abbreviation generator :=
  (optimize_generator split2 split4 initializer optimizer_init grad_fn
     optimizer_update apply_updates projection train_loss_fn test_loss_fn
     clock epochs train_seconds guess test_rolling_window).
Local Abbreviation plan_update :=
  (_jax_wrapped_plan_update grad_fn optimizer_update apply_updates projection).

Ltac open_body s :=
  unfold loop_body;
  destruct (split4 (ls_key s)) as [[[? ?subkey1] ?subkey2] ?subkey3];
  destruct (_jax_wrapped_plan_update _ _ _ _ _ _ _)
    as [[[?policy_params ?converged] ?opt_state] ?train_log];
  destruct (test_loss_fn _ _) as [?test_loss ?log];
  destruct (RollingMean_update _ _) as [?smoothed ?rolling].

Lemma body_index s : it_index (body s) = ls_it s.
Proof.
  open_body s.
  destruct (smoothed <? ls_best_loss s)%float; reflexivity.
Qed.

Lemma body_status s :
  it_status (body s)
  = iteration_status (it_converged (body s)) (it_elapsed (body s))
      train_seconds (ls_it s) epochs (it_train_loss (body s))
      (log_grad (it_train_log (body s))).
Proof.
  open_body s.
  destruct (smoothed <? ls_best_loss s)%float; reflexivity.
Qed.

Lemma body_params s :
  it_policy_params (body s)
  = fst (fst (fst (plan_update (snd (fst (fst (split4 (ls_key s)))))
                     (ls_policy_params s) (ls_opt_state s)))).
Proof.
  open_body s.
  destruct (smoothed <? ls_best_loss s)%float; reflexivity.
Qed.

(** The checkpoint moves to the current parameters exactly when the smoothed
    test loss is below the best loss so far. *)
Lemma body_best s :
  it_best_params (body s)
  = if (it_test_loss (body s) <? ls_best_loss s)%float
    then it_policy_params (body s) else ls_best_params s.
Proof.
  open_body s.
  destruct (smoothed <? ls_best_loss s)%float eqn:E; cbn; rewrite E; reflexivity.
Qed.

Lemma next_some s l s' :
  next s = Some (l, s') ->
  ls_broke s = false /\ ls_it s < epochs /\ l = body s /\ s' = resume s l.
Proof.
  unfold generator_next. destruct (ls_broke s); [discriminate |].
  destruct (epochs <=? ls_it s) eqn:E; [discriminate |].
  apply Nat.leb_gt in E. intros H; inversion H; subst. auto.
Qed.

Lemma next_running s :
  ls_broke s = false -> ls_it s < epochs ->
  next s = Some (body s, resume s (body s)).
Proof.
  intros Hb Hlt. unfold generator_next. rewrite Hb.
  apply Nat.leb_gt in Hlt. now rewrite Hlt.
Qed.

Lemma drain_broke fuel s : ls_broke s = true -> drained fuel s = [].
Proof.
  intros Hb. destruct fuel; simpl; [reflexivity |].
  unfold generator_next. now rewrite Hb.
Qed.

(** Every drained iteration ran the loop body on some state of the loop. *)
Lemma drain_spec fuel :
  forall s i l,
    ls_it s + fuel = epochs ->
    nth_error (drained fuel s) i = Some l ->
    it_index l = ls_it s + i /\
    (is_failure (it_status l) = true -> length (drained fuel s) = S i) /\
    (is_failure (it_status l) = false -> S (ls_it s + i) < epochs ->
     exists l', nth_error (drained fuel s) (S i) = Some l') /\
    exists s_i, l = body s_i /\ ls_it s_i = ls_it s + i /\
                (i = 0 -> s_i = s) /\
                (forall j, i = S j ->
                   exists s_j l_j, nth_error (drained fuel s) j = Some l_j /\
                                   s_i = resume s_j l_j).
Proof.
  induction fuel as [|fuel IH]; intros s i l Hfuel Hnth.
  - destruct i; discriminate.
  - cbn [drain] in *.
    destruct (next s) as [[l0 s']|] eqn:En; [| destruct i; discriminate].
    apply next_some in En. destruct En as (Hb & Hlt & -> & ->).
    assert (Hit' : ls_it (resume s (body s)) = S (ls_it s))
      by (cbn; now rewrite body_index).
    destruct i as [|i]; cbn [nth_error] in Hnth.
    + inversion Hnth; subst l. rewrite Nat.add_0_r.
      split; [apply body_index |]. split; [| split].
      * intros Hf. rewrite drain_broke; [reflexivity | exact Hf].
      * intros Hf Hlt'. cbn [nth_error].
        destruct fuel as [|fuel]; [lia |]. cbn [drain].
        rewrite next_running; [cbn; eauto | exact Hf | lia].
      * exists s. repeat split; try easy.
    + assert (Hfuel' : ls_it (resume s (body s)) + fuel = epochs)
        by (rewrite Hit'; lia).
      destruct (IH _ i l Hfuel' Hnth)
        as (Hi & Hf & Hc & s_i & Hs1 & Hs2 & Hs3 & Hs4).
      rewrite Hit' in Hi, Hc, Hs2.
      split; [lia |]. split; [| split].
      * intros H; cbn [length]; f_equal; auto.
      * intros H Hlt'. cbn [nth_error]. apply Hc; [exact H | lia].
      * exists s_i. split; [exact Hs1 |]. split; [lia |].
        split; [discriminate |].
        intros j Hj. inversion Hj; subst j.
        destruct i as [|i'].
        -- exists s, (body s). cbn [nth_error]. split; [reflexivity |].
           now apply Hs3.
        -- destruct (Hs4 i' eq_refl) as (s_j & l_j & Hn & Hr).
           exists s_j, l_j. cbn [nth_error]. auto.
Qed.

Lemma init_it key : ls_it (init key) = 0.
Proof.
  unfold loop_init. destruct guess; [reflexivity |].
  destruct (split2 key); reflexivity.
Qed.

Lemma trace_spec key i l :
  nth_error (trace key) i = Some l ->
  it_index l = i /\
  (is_failure (it_status l) = true -> length (trace key) = S i) /\
  (is_failure (it_status l) = false -> S i < epochs ->
   exists l', nth_error (trace key) (S i) = Some l') /\
  exists s_i, l = body s_i /\ ls_it s_i = i /\
              (i = 0 -> s_i = init key) /\
              (forall j, i = S j ->
                 exists s_j l_j, nth_error (trace key) j = Some l_j /\
                                 s_i = resume s_j l_j).
Proof.
  intros H. unfold optimize_trace in *.
  pose proof (@drain_spec epochs (init key) i l) as D.
  rewrite init_it in D. cbn [Nat.add] in D. apply D; [reflexivity | exact H].
Qed.

(** The bound [epochs] on the drained iterations loses nothing: with any
    larger bound the generator yields the same iterations. *)
Lemma drain_exhausted fuel :
  forall s k, epochs <= ls_it s + fuel -> drained (fuel + k) s = drained fuel s.
Proof.
  induction fuel as [|fuel IH]; intros s k Hle.
  - cbn [Nat.add drain]. destruct k; [reflexivity |]. cbn [drain].
    unfold generator_next. destruct (ls_broke s); [reflexivity |].
    replace (epochs <=? ls_it s) with true; [reflexivity |].
    symmetry; apply Nat.leb_le; lia.
  - cbn [Nat.add drain].
    destruct (next s) as [[l s']|] eqn:En; [| reflexivity].
    apply next_some in En. destruct En as (_ & _ & -> & ->).
    f_equal. apply IH. cbn. rewrite body_index. lia.
Qed.

Lemma last_some {A} (l : list A) i x :
  nth_error l i = Some x -> length l = S i -> last (map Some l) None = Some x.
Proof.
  revert i; induction l as [|y l IH]; intros i Hn Hl; [discriminate |].
  destruct i as [|i]; cbn in Hn, Hl.
  - destruct l; [cbn; congruence | discriminate].
  - destruct l as [|z l]; [destruct i; discriminate |].
    change (last (map Some (z :: l)) None = Some x).
    apply (IH i); [exact Hn | lia].
Qed.

Lemma generator_nth key i r :
  nth_error (generator key) i = Some r ->
  exists l, nth_error (trace key) i = Some l /\ r = yielded l.
Proof.
  unfold optimize_generator. rewrite nth_error_map.
  destruct (nth_error (trace key) i) as [l|]; [| discriminate].
  intros H; inversion H; eauto.
Qed.

(** C3: a record whose status is one of the three failure statuses is the
    last one the generator yields; after a record with any other status the
    generator yields the record of the next iteration, as long as the
    iteration budget allows one. *)
Theorem loop_stops_exactly_on_failure key i r :
  let records :=
    optimize_generator split2 split4 initializer optimizer_init grad_fn
      optimizer_update apply_updates projection train_loss_fn test_loss_fn
      clock epochs train_seconds guess test_rolling_window key in
  nth_error records i = Some r ->
  iteration_index r = i /\
  (In (status r) [TIME_BUDGET_REACHED; ITER_BUDGET_REACHED; INVALID_GRADIENT] ->
   length records = S i) /\
  (In (status r) [NORMAL; NO_PROGRESS; PRECONDITION_POSSIBLY_UNSATISFIED] ->
   S i < epochs ->
   exists r', nth_error records (S i) = Some r' /\ iteration_index r' = S i).
Proof.
  cbv zeta.
  intros H. destruct (generator_nth _ _ H) as (l & Hl & ->).
  destruct (trace_spec _ _ Hl) as (Hi & Hf & Hc & _).
  split; [exact Hi |]. split.
  - intros Hs. apply is_failure_iff in Hs.
    unfold optimize_generator. rewrite length_map. auto.
  - intros Hs Hlt. apply not_failure_iff in Hs.
    destruct (Hc Hs Hlt) as (l' & Hl').
    exists (yielded l'). unfold optimize_generator.
    rewrite nth_error_map, Hl'. split; [reflexivity |].
    now destruct (trace_spec _ _ Hl') as (Hi' & _).
Qed.

(** C2, as amended: the checks are assignments made one after the other, so
    the last one that holds decides.  When the gradient is not all
    numerically zero the status is INVALID_GRADIENT for a non-finite loss,
    else ITER_BUDGET_REACHED on the last iteration, else TIME_BUDGET_REACHED
    when the time is used up, else NORMAL or, after a projection that did not
    converge, PRECONDITION_POSSIBLY_UNSATISFIED.  When the gradient is all
    zero and no halting condition holds the status is NO_PROGRESS. *)
Theorem status_last_match key i l :
  nth_error (trace key) i = Some l ->
  (grad_norm_zero (grad (yielded l)) = false ->
   status (yielded l)
   = if negb (np_isfinite (it_train_loss l)) then INVALID_GRADIENT
     else if epochs - 1 <=? i then ITER_BUDGET_REACHED
     else if (train_seconds <=? elapsed_time (yielded l))%float
          then TIME_BUDGET_REACHED
     else if np_all (it_converged l) then NORMAL
     else PRECONDITION_POSSIBLY_UNSATISFIED) /\
  (grad_norm_zero (grad (yielded l)) = true ->
   np_isfinite (it_train_loss l) = true ->
   (epochs - 1 <=? i) = false ->
   (train_seconds <=? elapsed_time (yielded l))%float = false ->
   status (yielded l) = NO_PROGRESS).
Proof.
  intros Hl.
  destruct (trace_spec _ _ Hl) as (_ & _ & _ & s & -> & Hs & _).
  cbn [yielded status grad elapsed_time]. rewrite body_status, Hs.
  split.
  - intros Hg. now apply iteration_status_last_match.
  - intros Hg _ _ _. now apply iteration_status_no_progress.
Qed.

(** The best checkpoint and best loss before iteration [i] of a call. *)
Definition checkpoint_before key (i : nat) : option (Params * float) :=
  match i with
  | O => Some (ls_best_params (init key), ls_best_loss (init key))
  | S j => option_map (fun l => (it_best_params l, it_best_loss l))
                      (nth_error (trace key) j)
  end.

Lemma checkpoint_step key i l :
  nth_error (trace key) i = Some l ->
  exists prev_params prev_loss,
    checkpoint_before key i = Some (prev_params, prev_loss) /\
    it_best_params l
    = if (it_test_loss l <? prev_loss)%float then it_policy_params l
      else prev_params.
Proof.
  intros Hl.
  destruct (trace_spec _ _ Hl) as (_ & _ & _ & s & -> & Hs & H0 & HS).
  destruct i as [|j].
  - rewrite (H0 eq_refl). do 2 eexists. split; [reflexivity |].
    apply body_best.
  - destruct (HS j eq_refl) as (s_j & l_j & Hj & ->).
    do 2 eexists. split; [cbn [checkpoint_before]; rewrite Hj; reflexivity |].
    rewrite body_best. reflexivity.
Qed.

(** C5, as amended: an iteration whose training loss is not finite, and
    whose gradient is not all numerically zero, yields a record with status
    INVALID_GRADIENT, which is the last record; [optimize] returns the best
    checkpoint of that record and does not fail.  That checkpoint is the
    one from before the iteration, unless the smoothed test loss of the
    iteration is below the best loss so far: then it is the parameters of
    the iteration itself. *)
Theorem nonfinite_loss_halts key i l :
  nth_error (trace key) i = Some l ->
  np_isfinite (it_train_loss l) = false ->
  grad_norm_zero (log_grad (it_train_log l)) = false ->
  status (yielded l) = INVALID_GRADIENT /\
  nth_error (generator key) i = Some (yielded l) /\
  length (generator key) = S i /\
  optimize split2 split4 initializer optimizer_init grad_fn optimizer_update
    apply_updates projection train_loss_fn test_loss_fn clock epochs
    train_seconds guess test_rolling_window key
  = Some (best_params (yielded l)) /\
  exists prev_params prev_loss,
    checkpoint_before key i = Some (prev_params, prev_loss) /\
    best_params (yielded l)
    = if (it_test_loss l <? prev_loss)%float then params (yielded l)
      else prev_params.
Proof.
  intros Hl Hfin Hg.
  assert (Hst : status (yielded l) = INVALID_GRADIENT).
  { destruct (status_last_match _ _ Hl) as (H & _).
    rewrite H by exact Hg. now rewrite Hfin. }
  assert (Hn : nth_error (generator key) i = Some (yielded l)).
  { unfold optimize_generator. now rewrite nth_error_map, Hl. }
  assert (Hlen : length (generator key) = S i).
  { destruct (loop_stops_exactly_on_failure _ _ Hn) as (_ & H & _).
    apply H. rewrite Hst. cbn; auto. }
  repeat split; try assumption.
  - unfold optimize, optimize_callback.
    now rewrite (@last_some _ _ _ _ Hn Hlen).
  - apply checkpoint_step. exact Hl.
Qed.

Lemma drain_one s n :
  n = 1 -> ls_broke s = false -> ls_it s < epochs -> drained n s = [body s].
Proof.
  intros -> Hb Hlt. cbn [drain]. now rewrite next_running.
Qed.

(** C8, as amended: with [epochs = 1] the generator yields exactly one
    record, for iteration 0, whose parameters are one optimizer update and
    projection of the initial parameters; its status is ITER_BUDGET_REACHED
    when the training loss is finite and the gradient is not all numerically
    zero, and INVALID_GRADIENT when the loss is not finite and the gradient
    is not all numerically zero. *)
Theorem optimize_one_epoch key :
  epochs = 1 ->
  exists l,
    trace key = [l] /\ generator key = [yielded l] /\
    iteration_index (yielded l) = 0 /\
    params (yielded l)
    = fst (fst (fst (plan_update (snd (fst (fst (split4 (ls_key (init key))))))
                       (ls_policy_params (init key))
                       (ls_opt_state (init key))))) /\
    (grad_norm_zero (grad (yielded l)) = false ->
     status (yielded l)
     = if np_isfinite (it_train_loss l) then ITER_BUDGET_REACHED
       else INVALID_GRADIENT).
Proof.
  intros He.
  assert (Hinit : ls_broke (init key) = false).
  { unfold loop_init. destruct guess; [reflexivity |].
    destruct (split2 key); reflexivity. }
  assert (Ht : trace key = [body (init key)]).
  { unfold optimize_trace.
    apply drain_one; [exact He | exact Hinit | rewrite init_it; lia]. }
  exists (body (init key)).
  split; [exact Ht |]. split; [unfold optimize_generator; now rewrite Ht |].
  split; [cbn; now rewrite body_index, init_it |].
  split; [cbn [yielded params]; apply body_params |].
  intros Hg.
  assert (Hl : nth_error (trace key) 0 = Some (body (init key)))
    by now rewrite Ht.
  destruct (status_last_match _ _ Hl) as (H & _).
  rewrite H by exact Hg.
  replace (epochs - 1 <=? 0) with true by (rewrite He; reflexivity).
  destruct (np_isfinite (it_train_loss (body (init key)))); reflexivity.
Qed.

End OptimizeFacts.

(** *** A one-parameter planner instance

    Keys are counters, the single parameter [w] is a float, the optimizer is
    plain gradient descent with step 1, the projection is the box projection
    of an unconstrained plan, and the gradient and both losses are constants
    chosen per run.  The clock advances by one second per reading. *)

Definition toy_split2 (key : nat) : nat * nat := (S key, key).
Definition toy_split4 (key : nat) : nat * nat * nat * nat :=
  (S key, key, key, key).
Definition toy_initializer (_ : nat) : float := 0%float.
Definition toy_optimizer_init (_ : float) : unit := tt.
Definition toy_grad_fn (g : float) (_ : nat) (_ : float) : Grad * unit :=
  ([("w"%string, [g])], tt).
Definition toy_optimizer_update (grad : Grad) (opt_state : unit) : float * unit :=
  (match grad with
   | [(_, [g])] => (- g)%float
   | _ => 0%float
   end, opt_state).
Definition toy_apply_updates (p u : float) : float := (p + u)%float.
Definition toy_projection (p : float) : float * list bool := (p, [true]).
Definition toy_train_loss (loss : float) (_ : nat) (_ : float) : float := loss.
Definition toy_test_loss (loss : float) (_ : nat) (_ : float) : float * unit :=
  (loss, tt).
Definition toy_clock (n : nat) : float := float_of_nat n.

Definition toy_trace (g train test : float) (epochs : nat)
           (train_seconds : float) : list (iteration nat float unit float unit) :=
  optimize_trace toy_split2 toy_split4 toy_initializer toy_optimizer_init
    (toy_grad_fn g) toy_optimizer_update toy_apply_updates toy_projection
    (toy_train_loss train) (toy_test_loss test) toy_clock epochs train_seconds
    None 10%positive O.

Definition toy_generator (g train test : float) (epochs : nat)
           (train_seconds : float) : list (callback nat float float unit) :=
  optimize_generator toy_split2 toy_split4 toy_initializer toy_optimizer_init
    (toy_grad_fn g) toy_optimizer_update toy_apply_updates toy_projection
    (toy_train_loss train) (toy_test_loss test) toy_clock epochs train_seconds
    None 10%positive O.

Definition toy_optimize (g train test : float) (epochs : nat)
           (train_seconds : float) : option float :=
  optimize toy_split2 toy_split4 toy_initializer toy_optimizer_init
    (toy_grad_fn g) toy_optimizer_update toy_apply_updates toy_projection
    (toy_train_loss train) (toy_test_loss test) toy_clock epochs train_seconds
    None 10%positive O.

Definition toy_init : loop_state nat float unit :=
  loop_init toy_split2 toy_initializer toy_optimizer_init toy_clock None
    10%positive O.

Lemma loop_stops_exactly_on_failure_witness :
  exists r,
    nth_error (toy_generator 1 0 0 2 100) 0 = Some r /\
    status r = NORMAL /\
    iteration_index r = 0 /\
    exists r', nth_error (toy_generator 1 0 0 2 100) 1 = Some r' /\
               iteration_index r' = 1.
Proof.
  assert (H : exists r, nth_error (toy_generator 1 0 0 2 100) 0 = Some r /\
                        status r = NORMAL)
    by (eexists; split; vm_compute; reflexivity).
  destruct H as (r & Hr & Hs). exists r.
  split; [exact Hr |]. split; [exact Hs |].
  unfold toy_generator in *.
  destruct (loop_stops_exactly_on_failure _ _ _ _ _ _ _ _ _ _ _ _ _ _ _ _ _ Hr)
    as (Hi & _ & Hc).
  split; [exact Hi |].
  apply Hc; [rewrite Hs; cbn; auto | lia].
Defined.

Lemma status_last_match_witness :
  exists l,
    nth_error (toy_trace 1 0 0 2 100) 1 = Some l /\
    grad_norm_zero (grad (yielded l)) = false /\
    status (yielded l) = ITER_BUDGET_REACHED.
Proof.
  assert (H : exists l, nth_error (toy_trace 1 0 0 2 100) 1 = Some l /\
                        grad_norm_zero (grad (yielded l)) = false /\
                        np_isfinite (it_train_loss l) = true)
    by (eexists; repeat split; vm_compute; reflexivity).
  destruct H as (l & Hl & Hg & Hf). exists l.
  split; [exact Hl |]. split; [exact Hg |].
  unfold toy_trace in *.
  destruct (status_last_match _ _ _ _ _ _ _ _ _ _ _ _ _ _ _ _ _ Hl) as (H & _).
  rewrite (H Hg), Hf. reflexivity.
Defined.

Lemma nonfinite_loss_halts_witness :
  exists l,
    nth_error (toy_trace 1 nan nan 3 100) 0 = Some l /\
    status (yielded l) = INVALID_GRADIENT /\
    length (toy_generator 1 nan nan 3 100) = 1 /\
    toy_optimize 1 nan nan 3 100 = Some (best_params (yielded l)).
Proof.
  assert (H : exists l, nth_error (toy_trace 1 nan nan 3 100) 0 = Some l /\
                        np_isfinite (it_train_loss l) = false /\
                        grad_norm_zero (log_grad (it_train_log l)) = false)
    by (eexists; repeat split; vm_compute; reflexivity).
  destruct H as (l & Hl & Hf & Hg). exists l.
  split; [exact Hl |].
  unfold toy_trace, toy_generator, toy_optimize in *.
  destruct (nonfinite_loss_halts _ _ _ _ _ _ _ _ _ _ _ _ _ _ _ _ _ Hl Hf Hg)
    as (Hs & _ & Hlen & Ho & _).
  split; [exact Hs |]. split; [exact Hlen | exact Ho].
Defined.

Lemma optimize_one_epoch_witness :
  exists l,
    toy_trace 1 0 0 1 100 = [l] /\
    toy_generator 1 0 0 1 100 = [yielded l] /\
    iteration_index (yielded l) = 0 /\
    status (yielded l) = ITER_BUDGET_REACHED.
Proof.
  unfold toy_trace, toy_generator.
  destruct (@optimize_one_epoch _ _ _ _ _ toy_split2 toy_split4 toy_initializer
              toy_optimizer_init (toy_grad_fn 1) toy_optimizer_update
              toy_apply_updates toy_projection (toy_train_loss 0)
              (toy_test_loss 0) toy_clock 1 100%float None 10%positive O
              eq_refl)
    as (l & Ht & Hg & Hi & _ & Hs).
  exists l. split; [exact Ht |]. split; [exact Hg |]. split; [exact Hi |].
  assert (Hl : l = nth 0 (toy_trace 1 0 0 1 100) l)
    by (unfold toy_trace; rewrite Ht; reflexivity).
  rewrite Hs.
  - replace (np_isfinite (it_train_loss l)) with true; [reflexivity |].
    rewrite Hl. vm_compute. reflexivity.
  - rewrite Hl. vm_compute. reflexivity.
Defined.

(** C2, as stated, fails.  On the last iteration of a run whose time budget
    is used up the code reports ITER_BUDGET_REACHED, and with a non-finite
    loss INVALID_GRADIENT, where the first-match order gives
    TIME_BUDGET_REACHED. *)
Lemma status_not_first_match :
  map (fun l => (status (yielded l),
                 status_first_match (it_converged l) (it_elapsed l) 0
                   (it_index l) 1 (it_train_loss l) (log_grad (it_train_log l))))
      (toy_trace 1 0 0 1 0)
  = [(ITER_BUDGET_REACHED, TIME_BUDGET_REACHED)] /\
  map (fun l => (status (yielded l),
                 status_first_match (it_converged l) (it_elapsed l) 0
                   (it_index l) 3 (it_train_loss l) (log_grad (it_train_log l))))
      (toy_trace 1 nan 0 3 0)
  = [(INVALID_GRADIENT, TIME_BUDGET_REACHED)].
Proof. split; vm_compute; reflexivity. Qed.

(** C5, as stated, fails.  In the first run the training loss of iteration 0
    is NaN while the test loss is finite: the record has status
    INVALID_GRADIENT and the loop halts, but the best checkpoint moved from
    the initial parameters [0] to the parameters [-1] of that iteration.  In
    the second run the gradient is zero as well: the status is NO_PROGRESS
    in every iteration and the loop runs on to the iteration budget. *)
Lemma nonfinite_loss_counterexample :
  ls_best_params toy_init = 0%float /\
  map (fun l => (it_train_loss l, status (yielded l), params (yielded l),
                 best_params (yielded l)))
      (toy_trace 1 nan 0 3 100)
  = [(nan, INVALID_GRADIENT, (-1)%float, (-1)%float)] /\
  toy_optimize 1 nan 0 3 100 = Some (-1)%float /\
  map (fun l => (it_train_loss l, status (yielded l))) (toy_trace 0 nan 0 3 100)
  = [(nan, NO_PROGRESS); (nan, NO_PROGRESS); (nan, NO_PROGRESS)].
Proof. repeat split; vm_compute; reflexivity. Qed.

(** C8, as stated, fails: with [epochs = 1] and a training loss that is NaN
    the single record has status INVALID_GRADIENT. *)
Lemma one_epoch_not_iter_budget :
  map (fun r => (status r, iteration_index r)) (toy_generator 1 nan 0 1 100)
  = [(INVALID_GRADIENT, 0)].
Proof. vm_compute; reflexivity. Qed.

End Planner.

(** ** The action query: [JaxBackpropPlanner.get_action] *)

Module Action.

(** The kinds of array element types that [get_action] tells apart. *)
Inductive np_dtype := dt_float | dt_int | dt_bool | dt_object | dt_str.

Definition issubdtype_number (d : np_dtype) : bool :=
  match d with dt_float | dt_int => true | _ => false end.

Definition issubdtype_bool (d : np_dtype) : bool :=
  match d with dt_bool => true | _ => false end.

Record ndarray := {
  dtype : np_dtype;
  data : list (option Z)
}.

(** A value of the state mapping: an array, which has a [dtype], or another
    Python object, [None] or a plain number, which has none. *)
Inductive object :=
| Array (a : ndarray)
| PyNone
| PyNumber (x : Z).

(** [values.dtype]; no result stands for the [AttributeError] of an object
    without this attribute. *)
Definition getattr_dtype (values : object) : option np_dtype :=
  match values with
  | Array a => Some (dtype a)
  | PyNone | PyNumber _ => None
  end.

(** [sep in var] on strings. *)
Fixpoint contains (sep var : string) : bool :=
  if String.prefix sep var then true
  else match var with
       | EmptyString => false
       | String _ rest => contains sep rest
       end.

Inductive exn :=
| ValueError_grounded (var : string)
| ValueError_non_numeric (var : string)
| KeyError (var : string)
| AttributeError (var : string).

Section GetAction.

(** The separators are constants of the model class, which is not part of
    this repository. *)
Variable FLUENT_SEP : string.
Variable OBJECT_SEP : string.
Variable observ_fluents : list string.
Variable init_values : string -> option ndarray.
Variables Key Params Hyperparams Actions : Type.
Variable test_policy :
  Key -> Params -> option Hyperparams -> nat -> list (string * object) -> Actions.

Definition grounded (var : string) : bool :=
  contains FLUENT_SEP var || contains OBJECT_SEP var.

Definition non_numeric (d : np_dtype) : bool :=
  negb (issubdtype_number d) && negb (issubdtype_bool d).

Definition is_observ (var : string) : bool :=
  existsb (String.eqb var) observ_fluents.

(** The compatibility loop over [subs.items()]; an entry whose value is
    replaced keeps its place in the dictionary.  The element type is read
    off the value itself, before anything is known about it. *)
Fixpoint check_subs (step : nat) (items : list (string * object))
  : exn + list (string * object) :=
  match items with
  | [] => inr []
  | (var, values) :: rest =>
    if grounded var then inl (ValueError_grounded var)
    else
      let continue (entry : string * object) :=
        match check_subs step rest with
        | inl e => inl e
        | inr rest' => inr (entry :: rest')
        end in
      match getattr_dtype values with
      | None => inl (AttributeError var)
      | Some d =>
        if non_numeric d then
          if (step =? 0) && is_observ var then
            match init_values var with
            | Some initial => continue (var, Array initial)
            | None => inl (KeyError var)
            end
          else inl (ValueError_non_numeric var)
        else continue (var, values)
      end
  end.

Definition get_action (key : Key) (params : Params) (step : nat)
           (subs : list (string * object))
           (policy_hyperparams : option Hyperparams) : exn + Actions :=
  match check_subs step subs with
  | inl e => inl e
  | inr subs => inr (test_policy key params policy_hyperparams step subs)
  end.

(** An entry that makes [get_action] fail: its key is grounded, or its value
    has no element type, or the element type is neither numeric nor boolean
    outside the first step of an observation. *)
Definition rejected (step : nat) (entry : string * object) : Prop :=
  let '(var, values) := entry in
  grounded var = true \/
  match getattr_dtype values with
  | None => True
  | Some d => non_numeric d = true /\ ~ (step = 0 /\ In var observ_fluents)
  end.

(** What the loop leaves in the dictionary for an accepted entry. *)
Definition filled (entry : string * object) : string * object :=
  let '(var, values) := entry in
  match getattr_dtype values with
  | Some d =>
    if non_numeric d then
      match init_values var with
      | Some initial => (var, Array initial)
      | None => (var, values)
      end
    else (var, values)
  | None => (var, values)
  end.

Lemma is_observ_In var : is_observ var = true <-> In var observ_fluents.
Proof.
  unfold is_observ. rewrite existsb_exists. split.
  - intros (x & Hx & E). apply String.eqb_eq in E. now subst.
  - intros H. exists var. split; [exact H | apply String.eqb_refl].
Qed.

Hypothesis observ_initialized :
  forall var, In var observ_fluents -> init_values var <> None.

Lemma check_subs_spec step items :
  match check_subs step items with
  | inl _ => Exists (rejected step) items
  | inr items' => ~ Exists (rejected step) items /\ items' = map filled items
  end.
Proof.
  induction items as [|[var values] rest IH]; cbn [check_subs].
  - split; [intros H; inversion H | reflexivity].
  - destruct (grounded var) eqn:Eg.
    { apply Exists_cons_hd. cbn. auto. }
    destruct (getattr_dtype values) as [d|] eqn:Ed.
    2: { apply Exists_cons_hd. cbn. rewrite Ed. auto. }
    destruct (non_numeric d) eqn:En.
    + destruct ((step =? 0) && is_observ var) eqn:Eo.
      * apply andb_true_iff in Eo. destruct Eo as [Es Eo].
        apply Nat.eqb_eq in Es. apply is_observ_In in Eo.
        destruct (init_values var) as [initial|] eqn:Ei;
          [| now apply observ_initialized in Eo].
        destruct (check_subs step rest) as [e|rest'].
        -- now apply Exists_cons_tl.
        -- destruct IH as [IH ->]. split.
           ++ intros H. inversion H as [? ? Hh | ? ? Ht]; subst; [| auto].
              cbn in Hh. rewrite Ed in Hh.
              destruct Hh as [Hh | [_ Hh]]; [congruence | auto].
           ++ cbn [map filled]. now rewrite Ed, En, Ei.
      * apply Exists_cons_hd. cbn. rewrite Ed. right. split; [exact En |].
        intros [Hs Ho]. apply is_observ_In in Ho.
        apply Nat.eqb_eq in Hs. rewrite Hs, Ho in Eo. discriminate.
    + destruct (check_subs step rest) as [e|rest'].
      * now apply Exists_cons_tl.
      * destruct IH as [IH ->]. split.
        -- intros H. inversion H as [? ? Hh | ? ? Ht]; subst; [| auto].
           cbn in Hh. rewrite Ed in Hh.
           destruct Hh as [Hh | [Hh _]]; congruence.
        -- cbn [map filled]. now rewrite Ed, En.
Qed.

(** X29: [get_action] fails exactly when some key of the state mapping is
    grounded, or some value has no element type at all, or some value is an
    array that is neither numeric nor boolean, unless that array belongs to
    an observation fluent and the step is 0; otherwise it returns the actions
    of the test policy on the mapping in which these arrays are replaced by
    the initial values of the model. *)
Theorem get_action_fails_iff key params step subs policy_hyperparams :
  ((exists e, get_action key params step subs policy_hyperparams = inl e)
   <-> Exists (rejected step) subs) /\
  (~ Exists (rejected step) subs ->
   get_action key params step subs policy_hyperparams
   = inr (test_policy key params policy_hyperparams step (map filled subs))).
Proof.
  unfold get_action. pose proof (check_subs_spec step subs) as H.
  destruct (check_subs step subs) as [e|subs'].
  - split; [split; eauto | intros Hn; contradiction].
  - destruct H as [Hn ->]. split; [| reflexivity].
    split; [intros [e He]; discriminate | intros He; contradiction].
Qed.

End GetAction.

(** *** A partially observed model at its first step *)

Definition missing : ndarray := {| dtype := dt_object; data := [None] |}.
Definition zeros : ndarray := {| dtype := dt_float; data := [Some 0%Z] |}.

Definition pomdp_init_values (var : string) : option ndarray :=
  if String.eqb var "obs" then Some zeros else None.

Definition first_policy (_ : unit) (_ : unit) (_ : option unit) (_ : nat)
           (subs : list (string * object)) : list (string * object) := subs.

(** C9 at a failing input.  At step 0 the observation fluent [obs] has no
    value yet.  When the state holds [None] for it, the case that the comment
    in the loop names, reading the element type of the value raises an
    [AttributeError] and no action is returned; only when the missing value
    comes as an array of objects is it replaced by the initial value and the
    policy called. *)
Theorem get_action_none_observation_raises :
  get_action "___" "__" ["obs"%string] pomdp_init_values first_policy tt tt 0
    [("obs"%string, PyNone); ("x"%string, Array zeros)] None
  = inl (AttributeError "obs") /\
  get_action "___" "__" ["obs"%string] pomdp_init_values first_policy tt tt 0
    [("obs"%string, Array missing); ("x"%string, Array zeros)] None
  = inr [("obs"%string, Array zeros); ("x"%string, Array zeros)].
Proof. split; reflexivity. Qed.

Lemma get_action_fails_iff_witness :
  (forall var, In var ["obs"%string] -> pomdp_init_values var <> None) /\
  get_action "___" "__" ["obs"%string] pomdp_init_values first_policy tt tt 0
    [("obs"%string, Array missing); ("x"%string, Array zeros)] None
  = inr [("obs"%string, Array zeros); ("x"%string, Array zeros)] /\
  exists e,
    get_action "___" "__" ["obs"%string] pomdp_init_values first_policy tt tt 1
      [("obs"%string, Array missing); ("x"%string, PyNumber 1)] None = inl e.
Proof.
  assert (Hinit : forall var, In var ["obs"%string] ->
                              pomdp_init_values var <> None).
  { intros var [<- | []]. discriminate. }
  split; [exact Hinit |]. split.
  - destruct (@get_action_fails_iff "___" "__" ["obs"%string]
                pomdp_init_values unit unit unit _ first_policy Hinit tt tt 0
                [("obs"%string, Array missing); ("x"%string, Array zeros)] None)
      as (_ & H).
    rewrite H; [reflexivity |].
    intros He. inversion He as [? ? Hh | ? ? Ht]; subst.
    + cbn in Hh. destruct Hh as [Hh | [_ Hh]]; [discriminate |].
      apply Hh. auto.
    + inversion Ht as [? ? Hh | ? ? Ht']; subst; [| inversion Ht'].
      cbn in Hh. destruct Hh as [Hh | [Hh _]]; discriminate.
  - destruct (@get_action_fails_iff "___" "__" ["obs"%string]
                pomdp_init_values unit unit unit _ first_policy Hinit tt tt 1
                [("obs"%string, Array missing); ("x"%string, PyNumber 1)] None)
      as ((_ & H) & _).
    apply H. apply Exists_cons_hd. cbn. right.
    split; [reflexivity | intros [Hs _]; discriminate].
Defined.

End Action.

(** ** Further properties of the straight-line plan *)

Module Plan.
Import Jnp SLP.
Local Open Scope R_scope.

(** *** Clipping *)

Lemma clip_idempotent x lo hi : clip (clip x lo hi) lo hi = clip x lo hi.
Proof.
  unfold clip, Rmin, Rmax.
  repeat destruct Rle_dec; try reflexivity; lra.
Qed.

Lemma clip_between x lo hi : lo <= hi -> lo <= clip x lo hi <= hi.
Proof.
  intros H. unfold clip, Rmin, Rmax.
  repeat destruct Rle_dec; lra.
Qed.

Lemma clip_fixed x lo hi : lo <= x <= hi -> clip x lo hi = x.
Proof.
  intros H. unfold clip, Rmin, Rmax.
  repeat destruct Rle_dec; lra.
Qed.

Lemma clip_bounds_idempotent bounds var x :
  clip_bounds bounds var (clip_bounds bounds var x) = clip_bounds bounds var x.
Proof.
  unfold clip_bounds. destruct (bounds var) as [[lo|] [hi|]];
    unfold Rmin, Rmax; repeat destruct Rle_dec; try reflexivity; lra.
Qed.

Lemma sigmoid_increasing x y : x <= y -> sigmoid x <= sigmoid y.
Proof.
  intros H. unfold sigmoid.
  assert (He : exp (- y) <= exp (- x)).
  { destruct H as [H | ->]; [| lra].
    left. apply exp_increasing. lra. }
  pose proof (exp_pos (- x)). pose proof (exp_pos (- y)).
  unfold Rdiv. rewrite !Rmult_1_l.
  apply Rinv_le_contravar; lra.
Qed.

Lemma sigmoid_strict x y : sigmoid x < sigmoid y -> x < y.
Proof.
  intros H. destruct (Rlt_le_dec x y) as [Hlt | Hle]; [exact Hlt |].
  apply sigmoid_increasing in Hle. lra.
Qed.

Section BoxProjection.

Variable rddl : RDDLLiftedModel.
Variable wrap_sigmoid : bool.
Variable min_action_prob : R.
Variable wrap_non_bool : bool.
Variable bounds : string -> option R * option R.

Local Abbreviation to_box :=
  (_jax_project_bool_to_box wrap_sigmoid min_action_prob).
Local Abbreviation box :=
  (_jax_wrapped_slp_project_to_box rddl wrap_sigmoid min_action_prob
     wrap_non_bool bounds).

Lemma to_box_idempotent var x hp :
  to_box var (to_box var x hp) hp = to_box var x hp.
Proof. unfold _jax_project_bool_to_box. apply clip_idempotent. Qed.

(** X1: projecting to the box a second time changes nothing, whatever the
    parameters, the bounds and the hyper-parameters are. *)
Theorem project_to_box_idempotent (params : plan_params) (hp : hyperparams) :
  box (fst (box params hp)) hp = box params hp.
Proof.
  unfold _jax_wrapped_slp_project_to_box. cbn [fst]. f_equal.
  rewrite map_map. apply map_ext. intros [var param].
  destruct (String.eqb var bool_key) eqn:Ek; [now rewrite Ek |].
  destruct (is_bool rddl var) eqn:Eb.
  - rewrite Ek, Eb. f_equal. rewrite map_map. apply map_ext. intros row.
    rewrite map_map. apply map_ext. intros x. apply to_box_idempotent.
  - destruct wrap_non_bool eqn:Ew; rewrite Ek, Eb; [reflexivity |].
    f_equal. rewrite map_map. apply map_ext. intros row.
    rewrite map_map. apply map_ext. intros x. apply clip_bounds_idempotent.
Qed.

(** The ends of the box of a boolean parameter are the parameters of the
    actions [min_action] and [max_action]; they are in order, with 0 between
    them when the sigmoid is used, so that the box is not empty. *)
Lemma box_ends_ordered var hp :
  0 < min_action_prob < 1 / 2 ->
  (wrap_sigmoid = true -> 0 < hp var) ->
  _jax_bool_action_to_param wrap_sigmoid var (min_action min_action_prob) hp
  <= _jax_bool_action_to_param wrap_sigmoid var
       (max_action min_action_prob) hp.
Proof.
  intros Hm Hw.
  unfold _jax_bool_action_to_param, max_action, min_action.
  destruct wrap_sigmoid; [| lra].
  specialize (Hw eq_refl). cbv zeta.
  assert (Hlo : 0 <= ln (1 / min_action_prob - 1)).
  { rewrite <- ln_1. destruct (Req_dec 1 (1 / min_action_prob - 1)) as [<- | Hne];
      [lra |].
    left. apply ln_increasing; [lra |].
    assert (H : 2 < 1 / min_action_prob).
    { apply (Rmult_lt_reg_r min_action_prob); [lra |].
      unfold Rdiv. rewrite Rmult_assoc, Rinv_l by lra. lra. }
    lra. }
  assert (Hhi : ln (1 / (1 - min_action_prob) - 1) <= 0).
  { rewrite <- ln_1. left. apply ln_increasing.
    - assert (H : 1 < 1 / (1 - min_action_prob)).
      { apply (Rmult_lt_reg_r (1 - min_action_prob)); [lra |].
        unfold Rdiv. rewrite Rmult_assoc, Rinv_l by lra. lra. }
      lra.
    - assert (H : 1 / (1 - min_action_prob) < 2).
      { apply (Rmult_lt_reg_r (1 - min_action_prob)); [lra |].
        unfold Rdiv. rewrite Rmult_assoc, Rinv_l by lra. lra. }
      lra. }
  assert (Hw' : 0 < 1 / hp var) by (apply Rdiv_lt_0_compat; lra).
  replace (-1 / hp var) with (- (1 / hp var)) by (field; lra).
  nra.
Qed.

(** X2: after the box projection every entry of every boolean parameter
    lies inside the box that the code computes for it, between the parameter
    of the action [min_action_prob] and the parameter of the action
    [1 - min_action_prob]: for [0 < min_action_prob < 1/2] and a positive
    weight these two ends are in order, so the clip lands between them. *)
Theorem project_to_box_param_range (params : plan_params) (hp : hyperparams)
        var param row x :
  0 < min_action_prob < 1 / 2 ->
  (wrap_sigmoid = true -> 0 < hp var) ->
  In (var, param) (fst (box params hp)) ->
  String.eqb var bool_key = false ->
  is_bool rddl var = true ->
  In row param -> In x row ->
  _jax_bool_action_to_param wrap_sigmoid var (min_action min_action_prob) hp
  <= x
  <= _jax_bool_action_to_param wrap_sigmoid var (max_action min_action_prob) hp.
Proof.
  intros Hm Hw Hin Hk Hb Hrow Hx.
  cbn [_jax_wrapped_slp_project_to_box fst] in Hin.
  apply in_map_iff in Hin. destruct Hin as ([var0 param0] & Heq & _).
  destruct (String.eqb var0 bool_key) eqn:Ek0.
  { inversion Heq; subst. congruence. }
  destruct (is_bool rddl var0) eqn:Eb0.
  - inversion Heq; subst.
    apply in_map_iff in Hrow. destruct Hrow as (row0 & <- & _).
    apply in_map_iff in Hx. destruct Hx as (x0 & <- & _).
    unfold _jax_project_bool_to_box. apply clip_between.
    now apply box_ends_ordered.
  - destruct wrap_non_bool; inversion Heq; subst; congruence.
Qed.

End BoxProjection.

Lemma project_to_box_param_range_witness :
  _jax_bool_action_to_param true "a" (min_action (1 / 1000000)) unit_weights
  <= _jax_project_bool_to_box true (1 / 1000000) "a" 100 unit_weights
  <= _jax_bool_action_to_param true "a" (max_action (1 / 1000000)) unit_weights.
Proof.
  apply (@project_to_box_param_range rddl_noop_true true (1 / 1000000) false
           unbounded [("a"%string, [[100]])] unit_weights "a"%string
           [[_jax_project_bool_to_box true (1 / 1000000) "a" 100 unit_weights]]
           [_jax_project_bool_to_box true (1 / 1000000) "a" 100 unit_weights]).
  - lra.
  - intros _. unfold unit_weights. lra.
  - cbn. left. reflexivity.
  - reflexivity.
  - reflexivity.
  - cbn. auto.
  - cbn. auto.
Defined.

(** *** Wrapping of the non-boolean actions *)

(** [jax.nn.elu] with its default [alpha = 1]. *)
Definition elu (x : R) : R := if Rlt_dec 0 x then x else exp x - 1.

(** [jnp.select(condlist, choicelist)]: the choice of the first condition
    that holds, and 0 when none does. *)
Fixpoint select (condlist : list bool) (choicelist : list R) : R :=
  match condlist, choicelist with
  | c :: condlist', x :: choicelist' =>
    if c then x else select condlist' choicelist'
  | _, _ => 0
  end.

Definition isfinite (bound : option R) : bool :=
  match bound with Some _ => true | None => false end.

Section NonBool.

Variable wrap_non_bool : bool.
Variable bounds : string -> option R * option R.

(** From [_calculate_action_info]: an infinite bound is replaced by 0, and
    the four patterns of finite bounds are listed. *)
Definition bounds_safe (name : string) : R * R :=
  let '(lower, upper) := bounds name in
  (match lower with Some l => l | None => 0 end,
   match upper with Some u => u | None => 0 end).

Definition cond_lists (name : string) : list bool :=
  let '(lower, upper) := bounds name in
  let lower_finite := isfinite lower in
  let upper_finite := isfinite upper in
  [lower_finite && upper_finite;
   lower_finite && negb upper_finite;
   negb lower_finite && upper_finite;
   negb lower_finite && negb upper_finite].

Definition _jax_non_bool_param_to_action (var : string) (param : R)
           (hp : hyperparams) : R :=
  if wrap_non_bool then
    let '(lower, upper) := bounds_safe var in
    select (cond_lists var)
           [lower + (upper - lower) * sigmoid param;
            lower + (elu param + 1);
            upper - (elu (- param) + 1);
            param]
  else param.

End NonBool.

(** *** Warm start: [guess_next_epoch] *)

(** [jnp.append(param[1:, ...], param[-1:, ...], axis=0)] *)
Definition _guess_next_epoch (param : list tensor) : list tensor :=
  skipn 1 param ++ skipn (length param - 1) param.

(** [jax.tree_map(next_fn, params)] *)
Definition guess_next_epoch (params : plan_params) : plan_params :=
  map (fun '(var, param) => (var, _guess_next_epoch param)) params.

Lemma guess_next_epoch_assoc var (params : plan_params) :
  assoc var (guess_next_epoch params)
  = option_map _guess_next_epoch (assoc var params).
Proof.
  induction params as [|[k param] params IH]; [reflexivity |].
  cbn [guess_next_epoch map assoc]. fold (guess_next_epoch params).
  destruct (String.eqb k var); [reflexivity | exact IH].
Qed.

(** X4: the guess for the next epoch keeps the variables and the horizon of
    the plan, holds at every step but the last the row of the following
    step, and repeats the old last row at the last step. *)
Theorem guess_next_epoch_shifts (params : plan_params) var param :
  assoc var params = Some param ->
  exists param',
    assoc var (guess_next_epoch params) = Some param' /\
    length param' = length param /\
    (forall t, (S t < length param)%nat ->
               nth_error param' t = nth_error param (S t)) /\
    nth_error param' (length param - 1) = nth_error param (length param - 1).
Proof.
  intros Ha. exists (_guess_next_epoch param).
  rewrite guess_next_epoch_assoc, Ha. split; [reflexivity |].
  unfold _guess_next_epoch.
  assert (Hl : length (skipn 1 param) = (length param - 1)%nat)
    by apply length_skipn.
  split; [| split].
  - rewrite length_app, !length_skipn. lia.
  - intros t Ht. rewrite nth_error_app1 by lia.
    now rewrite nth_error_skipn.
  - rewrite nth_error_app2 by lia. rewrite Hl, Nat.sub_diag.
    rewrite nth_error_skipn. now rewrite Nat.add_0_r.
Qed.

Lemma guess_next_epoch_shifts_witness :
  exists param',
    assoc "a" (guess_next_epoch [("a"%string, [[1]; [2]; [3]])]) = Some param' /\
    length param' = 3%nat /\
    nth_error param' 0 = Some [2] /\
    nth_error param' 2 = Some [3].
Proof.
  destruct (@guess_next_epoch_shifts [("a"%string, [[1]; [2]; [3]])]
              "a"%string [[1]; [2]; [3]] eq_refl)
    as (param' & Ha & Hl & Hs & Hlast).
  exists param'. split; [exact Ha |]. split; [exact Hl |].
  split; [apply (Hs 0%nat); cbn; lia | exact Hlast].
Defined.

(** *** The sort-based projection on one time step *)

Lemma sorted_suffix_ge l1 k l2 :
  StronglySorted Rle (l1 ++ k :: l2) -> Forall (fun x => k <= x) l2.
Proof.
  induction l1 as [|x l1 IH]; cbn; intros H.
  - now inversion H.
  - inversion H; subst. now apply IH.
Qed.

Lemma count_true_all {A} (f : A -> bool) l :
  Forall (fun x => f x = true) l -> count_true (map f l) = length l.
Proof.
  induction 1 as [|x l Hx _ IH]; [reflexivity |].
  unfold count_true in *. cbn [map filter]. rewrite Hx. cbn [length].
  now rewrite IH.
Qed.

(** When at most [K] scores are above [t], the entry at index [K] of the
    scores in descending order is not above [t]. *)
Lemma kplus1st_le_of_count (scores : tensor) (K : nat) (k t : R) :
  nth_error (rev (sort scores)) K = Some k ->
  (count_true (map (fun x => gtb x t) scores) <= K)%nat ->
  k <= t.
Proof.
  intros Hk Hc. destruct (Rle_lt_dec k t) as [Hle | Hlt]; [exact Hle |].
  exfalso.
  destruct (nth_error_split _ _ Hk) as (d1 & d2 & Hd & Hlen).
  assert (Ha : sort scores = rev d2 ++ k :: rev d1).
  { rewrite <- (rev_involutive (sort scores)), Hd, rev_app_distr.
    cbn [rev]. now rewrite <- app_assoc. }
  pose proof (sort_sorted scores) as Hs. rewrite Ha in Hs.
  apply sorted_suffix_ge in Hs.
  rewrite (count_true_perm _ (sort_perm scores)), Ha in Hc.
  rewrite map_app, count_true_app in Hc.
  rewrite (@count_true_all _ (fun x => gtb x t) (k :: rev d1)) in Hc.
  - cbn [length] in Hc. rewrite length_rev in Hc. lia.
  - constructor; [now apply gtb_true |].
    eapply Forall_impl; [| exact Hs]. intros x Hx. apply gtb_true. lra.
Qed.

Section SortingStep.

Variable rddl : RDDLLiftedModel.
Variable wrap_sigmoid : bool.
Variable min_action_prob : R.
Variable hp : hyperparams.

Local Abbreviation K := (allowed_actions rddl).
Local Abbreviation thr := (bool_threshold wrap_sigmoid).
Local Abbreviation to_box :=
  (_jax_project_bool_to_box wrap_sigmoid min_action_prob).
Local Abbreviation sorting :=
  (_jax_wrapped_sorting_project rddl wrap_sigmoid min_action_prob).
Local Abbreviation scores_of := (sorting_scores rddl wrap_sigmoid).

(** The boolean entries of one time step are inside their box. *)
Definition boxed (sp : step_params) : Prop :=
  forall var row x, In (var, row) sp -> is_bool rddl var = true ->
                    In x row -> to_box var x hp = x.

(** X5: a time step that is inside the box and already feasible, that is
    whose (K+1)-th largest score is not above the threshold, is returned
    unchanged by the sort-based projection, with success. *)
Theorem sorting_project_fixes_feasible (sp : step_params) (k : R) :
  boxed sp ->
  nth_error (rev (sort (concat (scores_of sp)))) K = Some k ->
  k <= thr ->
  sorting sp hp = Some (sp, true).
Proof.
  intros Hbox Hk Hle. unfold _jax_wrapped_sorting_project.
  destruct (scores_of sp) as [|s ss] eqn:Es.
  { cbn [concat sort fold_right rev] in Hk. rewrite nth_error_nil in Hk.
    discriminate. }
  cbn [concatenate]. rewrite Hk.
  replace (Rmax (k - thr) 0) with 0 by (rewrite Rmax_right; lra).
  do 2 f_equal. rewrite <- (map_id sp) at 2.
  apply map_ext_in. intros [var row] Hin.
  destruct (is_bool rddl var) eqn:Eb; [| reflexivity].
  f_equal. rewrite <- (map_id row) at 2.
  apply map_ext_in. intros x Hx.
  replace (x + (if noop rddl var then 0 else - 0)) with x
    by (destruct (noop rddl var); lra).
  exact (Hbox var row x Hin Eb Hx).
Qed.

(** X6: the sort-based projection keeps the variables of a time step and
    the number of entries of each, and leaves every non-boolean variable as
    it is. *)
Theorem sorting_project_touches_bool_only (sp sp' : step_params) b :
  sorting sp hp = Some (sp', b) ->
  Forall2 (fun '(var, row) '(var', row') =>
             var' = var /\ length row' = length row /\
             (is_bool rddl var = false -> row' = row)) sp sp'.
Proof.
  unfold _jax_wrapped_sorting_project.
  destruct (concatenate (scores_of sp)) as [scores|]; [| discriminate].
  destruct (nth_error (rev (sort scores)) K) as [k|]; [| discriminate].
  intros H; inversion H; subst; clear H.
  induction sp as [|[var row] sp IH]; cbn [map]; constructor; [| exact IH].
  destruct (is_bool rddl var); [| auto].
  split; [reflexivity |]. split; [apply length_map | intros; discriminate].
Qed.

Hypothesis noop_false :
  forall var, is_bool rddl var = true -> noop rddl var = false.
Hypothesis weights_positive : forall var, 0 < hp var.
Hypothesis min_prob : 0 < min_action_prob < 1 / 2.

Lemma step_active_scores (sp : step_params) :
  step_active rddl wrap_sigmoid sp
  = count_true (map (fun x => gtb x thr) (concat (scores_of sp))).
Proof.
  unfold step_active.
  induction sp as [|[var row] sp IH]; [reflexivity |].
  cbn [map sorting_scores flat_map]. fold (scores_of sp).
  change (list_sum (?a :: ?l)) with (a + list_sum l)%nat.
  destruct (is_bool rddl var) eqn:Eb; cbn [app concat]; [| exact IH].
  rewrite (noop_false _ Eb), map_app, count_true_app, IH. f_equal.
  f_equal. apply map_ext. intros x. now destruct (gtb x thr).
Qed.

Lemma scores_length_preserved (sp sp' : step_params) b :
  sorting sp hp = Some (sp', b) ->
  length (concat (scores_of sp')) = length (concat (scores_of sp)).
Proof.
  intros H. apply sorting_project_touches_bool_only in H.
  induction H as [|[var row] [var' row'] sp sp' (-> & Hl & _) _ IH];
    [reflexivity |].
  cbn [sorting_scores flat_map]. fold (scores_of sp) (scores_of sp').
  destruct (is_bool rddl var) eqn:Eb; cbn [app concat]; [| exact IH].
  rewrite (noop_false _ Eb), !length_app, IH. now rewrite Hl.
Qed.

(** X7: when every boolean action defaults to false the sort-based
    projection of a time step is idempotent: projecting its own output
    returns that output, with success. *)
Theorem sorting_project_idempotent (sp sp' : step_params) b :
  sorting sp hp = Some (sp', b) ->
  sorting sp' hp = Some (sp', true).
Proof.
  intros Hs.
  pose proof (@sorting_step_bound rddl wrap_sigmoid min_action_prob hp
                noop_false weights_positive min_prob sp sp' b Hs)
    as (_ & _ & Hact).
  pose proof (@scores_length_preserved sp sp' b Hs) as Hlen.
  assert (HK : (K < length (concat (scores_of sp)))%nat).
  { unfold _jax_wrapped_sorting_project in Hs.
    destruct (scores_of sp) as [|s ss]; [discriminate |].
    cbn [concatenate] in Hs.
    destruct (nth_error (rev (sort (concat (s :: ss)))) K) eqn:Ek;
      [| discriminate].
    assert (Hn : nth_error (rev (sort (concat (s :: ss)))) K <> None)
      by congruence.
    apply nth_error_Some in Hn.
    now rewrite length_rev, sort_length in Hn. }
  destruct (nth_error (rev (sort (concat (scores_of sp')))) K) as [k'|] eqn:Ek'.
  2:{ apply nth_error_None in Ek'.
      rewrite length_rev, sort_length, Hlen in Ek'. lia. }
  apply (@sorting_project_fixes_feasible sp' k'); [| exact Ek' |].
  - intros var row x Hin Eb Hx.
    unfold _jax_wrapped_sorting_project in Hs.
    destruct (concatenate (scores_of sp)); [| discriminate].
    destruct (nth_error (rev (sort t)) K); [| discriminate].
    inversion Hs; subst; clear Hs.
    apply in_map_iff in Hin. destruct Hin as ([var0 row0] & Heq & _).
    destruct (is_bool rddl var0) eqn:Eb0; inversion Heq; subst;
      [| congruence].
    apply in_map_iff in Hx. destruct Hx as (x0 & <- & _).
    unfold _jax_project_bool_to_box. apply clip_idempotent.
  - apply (@kplus1st_le_of_count (concat (scores_of sp')) K); [exact Ek' |].
    now rewrite <- step_active_scores.
Qed.

End SortingStep.

(** A model with one boolean action of two groundings that defaults to
    false, and at most one action allowed. *)
Definition rddl_noop_false : RDDLLiftedModel :=
  {| action_fluents := [("a"%string, [false; false])];
     variable_ranges := fun _ => range_bool;
     max_allowed_actions := 1 |}.

Lemma rddl_noop_false_noop var :
  is_bool rddl_noop_false var = true -> noop rddl_noop_false var = false.
Proof.
  intros _. unfold noop. cbn [action_fluents rddl_noop_false assoc].
  destruct (String.eqb "a" var); reflexivity.
Qed.

Lemma sorting_project_example :
  _jax_wrapped_sorting_project rddl_noop_false true (1 / 1000000)
    [("a"%string, [2; 1])] unit_weights
  = Some ([("a"%string, [1; 0])], true).
Proof.
  unfold _jax_wrapped_sorting_project.
  cbn [sorting_scores flat_map app is_bool ranges variable_ranges
       rddl_noop_false noop assoc action_fluents String.eqb Ascii.eqb
       Bool.eqb concatenate concat map].
  rewrite sort_descending_pair by lra.
  cbn [nth_error allowed_actions _count_bool_actions snd max_allowed_actions
       rddl_noop_false bool_threshold].
  replace (Rmax (1 - 0) 0) with 1 by (rewrite Rmax_left; lra).
  replace (2 + - (1)) with 1 by lra.
  replace (1 + - (1)) with 0 by lra.
  rewrite !box_id_unit_weight by lra. reflexivity.
Qed.

Lemma sorting_project_fixes_feasible_witness :
  _jax_wrapped_sorting_project rddl_noop_false true (1 / 1000000)
    [("a"%string, [1; 0])] unit_weights
  = Some ([("a"%string, [1; 0])], true).
Proof.
  apply (@sorting_project_fixes_feasible rddl_noop_false true (1 / 1000000)
           unit_weights [("a"%string, [1; 0])] 0).
  - intros var row x [Hin | []] _ Hx. inversion Hin; subst.
    destruct Hx as [<- | [<- | []]]; apply box_id_unit_weight; lra.
  - cbn [sorting_scores flat_map app is_bool ranges variable_ranges
         rddl_noop_false noop assoc action_fluents String.eqb Ascii.eqb
         Bool.eqb concat].
    rewrite sort_descending_pair by lra. reflexivity.
  - cbn. lra.
Defined.

Lemma sorting_project_touches_bool_only_witness :
  Forall2 (fun '(var, row) '(var', row') =>
             var' = var /\ length row' = length row /\
             (is_bool rddl_noop_false var = false -> row' = row))
          [("a"%string, [2; 1])] [("a"%string, [1; 0])].
Proof.
  exact (@sorting_project_touches_bool_only rddl_noop_false true
           (1 / 1000000) unit_weights _ _ _ sorting_project_example).
Defined.

Lemma sorting_project_idempotent_witness :
  _jax_wrapped_sorting_project rddl_noop_false true (1 / 1000000)
    [("a"%string, [1; 0])] unit_weights
  = Some ([("a"%string, [1; 0])], true).
Proof.
  assert (Hm : 0 < 1 / 1000000 < 1 / 2) by lra.
  assert (Hw : forall var : string, 0 < unit_weights var)
    by (intros var; unfold unit_weights; lra).
  exact (@sorting_project_idempotent rddl_noop_false true (1 / 1000000)
           unit_weights rddl_noop_false_noop Hw Hm
           [("a"%string, [2; 1])] [("a"%string, [1; 0])] true
           sorting_project_example).
Defined.

(** *** The SOGBOFA projection on one time step *)

Section SogbofaStep.

Variable rddl : RDDLLiftedModel.
Variable wrap_sigmoid : bool.
Variable min_action_prob : R.
Variable max_constraint_iter : nat.

Local Abbreviation surplus_of := (_jax_wrapped_sogbofa_surplus rddl wrap_sigmoid).
Local Abbreviation sogbofa :=
  (_jax_wrapped_sogbofa_project rddl wrap_sigmoid min_action_prob
     max_constraint_iter).
Local Abbreviation subtract :=
  (_jax_wrapped_sogbofa_subtract_surplus rddl wrap_sigmoid min_action_prob).

Lemma sogbofa_surplus_nonneg (params : step_params) (hp : hyperparams) :
  0 <= surplus_of params hp.
Proof.
  unfold _jax_wrapped_sogbofa_surplus.
  match goal with
  | |- context [fold_left ?f params ?z] =>
    destruct (fold_left f params z) as [sum_action count]
  end.
  assert (Hc : 0 < INR (Nat.max count 1)) by (apply lt_0_INR; lia).
  pose proof (Rmax_r (sum_action - INR (allowed_actions rddl)) 0).
  apply Rmult_le_pos; [lra |]. left. now apply Rinv_0_lt_compat.
Qed.

(** X8: the surplus computed by the SOGBOFA projection is never negative,
    and a time step whose surplus is zero is returned unchanged and reported
    as converged. *)
Theorem sogbofa_project_fixes_feasible (params : step_params) (hp : hyperparams) :
  0 <= surplus_of params hp /\
  (surplus_of params hp = 0 -> sogbofa params hp = Some (params, true)).
Proof.
  split; [apply sogbofa_surplus_nonneg |].
  intros H0. unfold _jax_wrapped_sogbofa_project, sogbofa_loop.
  rewrite H0.
  assert (Hg : gtb 0 0 = false) by (apply gtb_false; lra).
  assert (Hc : _jax_wrapped_sogbofa_continue max_constraint_iter
                 (0%nat, params, hp, 0) = false).
  { cbn [_jax_wrapped_sogbofa_continue]. rewrite Hg. apply andb_false_r. }
  destruct max_constraint_iter; cbn [while_loop]; rewrite Hc, Hg; reflexivity.
Qed.

(** What both projections keep of a time step: the variables, the number of
    entries of each, and the non-boolean rows. *)
Definition kept (sp sp' : step_params) : Prop :=
  Forall2 (fun '(var, row) '(var', row') =>
             var' = var /\ length row' = length row /\
             (is_bool rddl var = false -> row' = row)) sp sp'.

Lemma kept_refl sp : kept sp sp.
Proof. induction sp as [|[var row] sp IH]; constructor; auto. Qed.

Lemma kept_trans sp1 sp2 sp3 : kept sp1 sp2 -> kept sp2 sp3 -> kept sp1 sp3.
Proof.
  intros H12. revert sp3.
  induction H12 as [|[v1 r1] [v2 r2] sp1 sp2 H _ IH]; intros sp3 H23.
  - inversion H23. constructor.
  - inversion H23 as [|x [v3 r3] l l' H' H23']; subst.
    destruct H as (Hv & Hl & Hn). destruct H' as (Hv' & Hl' & Hn'). subst.
    constructor; [| now apply IH].
    split; [reflexivity |]. split; [congruence |].
    intros Hb. rewrite (Hn' Hb). now apply Hn.
Qed.

Lemma subtract_kept it p h s :
  exists p' s', subtract (it, p, h, s) = (S it, p', h, s') /\ kept p p'.
Proof.
  cbn [_jax_wrapped_sogbofa_subtract_surplus]. do 2 eexists.
  split; [reflexivity |].
  induction p as [|[var row] p IH]; cbn [map]; constructor; [| exact IH].
  destruct (is_bool rddl var); [| auto].
  split; [reflexivity |]. split; [apply length_map | intros; discriminate].
Qed.

Lemma iter_subtract_kept n p h s :
  exists p' s', Nat.iter n subtract (0%nat, p, h, s) = (n, p', h, s') /\
                kept p p'.
Proof.
  induction n as [|n (p1 & s1 & Hi & Hk)].
  - exists p, s. split; [reflexivity | apply kept_refl].
  - rewrite Nat.iter_succ, Hi.
    destruct (subtract_kept n p1 h s1) as (p2 & s2 & Hb & Hk2).
    exists p2, s2. split; [exact Hb | now apply kept_trans with p1].
Qed.

(** X9: the SOGBOFA projection always returns, and it too keeps the
    variables of a time step and the number of entries of each and leaves
    every non-boolean variable as it is. *)
Theorem sogbofa_project_touches_bool_only (params : step_params)
        (hp : hyperparams) :
  exists params' converged,
    sogbofa params hp = Some (params', converged) /\ kept params params'.
Proof.
  destruct (@sogbofa_loop_from rddl wrap_sigmoid min_action_prob
              max_constraint_iter max_constraint_iter 0%nat params hp
              (surplus_of params hp) eq_refl)
    as (n & p' & s' & Hw & _ & Hi & _).
  rewrite Nat.add_0_l in Hw, Hi.
  destruct (iter_subtract_kept n params hp (surplus_of params hp))
    as (p2 & s2 & Hi2 & Hk).
  rewrite Hi in Hi2. inversion Hi2; subst.
  exists p2, (negb (gtb s2 0)).
  unfold _jax_wrapped_sogbofa_project, sogbofa_loop. rewrite Hw.
  split; [reflexivity | exact Hk].
Qed.

End SogbofaStep.

(** *** The softmax block of the boolean actions *)

(** [jax.nn.softmax] *)
Definition softmax (x : tensor) : tensor :=
  map (fun v => exp v / sum (map exp x)) x.

Section Softmax.

Variable rddl : RDDLLiftedModel.

(** The number of entries of every boolean action, in the order of the
    action fluents. *)
Definition action_sizes : list (string * nat) :=
  flat_map (fun '(var, values) =>
              if is_bool rddl var then [(var, length values)] else [])
           (action_fluents rddl).

(** The loop of [_jax_unstack_bool_from_softmax], from position [start]. *)
Fixpoint unstack_from (sizes : list (string * nat)) (start : nat)
         (output : tensor) : list (string * tensor) :=
  match sizes with
  | [] => []
  | (name, size) :: sizes' =>
    let action := firstn size (skipn start output) in
    let action := if noop rddl name then map (fun a => 1 - a) action
                  else action in
    (name, action) :: unstack_from sizes' (start + size) output
  end.

Definition _jax_unstack_bool_from_softmax (output : tensor)
  : list (string * tensor) :=
  unstack_from action_sizes 0 output.

(** The softmax branch of [_jax_wrapped_slp_predict_test], on the stacked
    boolean parameter [param] of a plan compiled with [wrap_softmax]. *)
Definition softmax_predict_test (param : list tensor) (step : nat)
  : list (string * list bool) :=
  let action := nth step param [] in
  let output := softmax action in
  map (fun '(bool_var, bool_action) =>
         (bool_var, map (fun a => gtb a (1 / 2)) bool_action))
      (_jax_unstack_bool_from_softmax output).

Lemma softmax_nonneg x : Forall (fun p => 0 <= p) (softmax x).
Proof.
  unfold softmax. apply Forall_map, Forall_forall. intros v Hv.
  assert (Hs : 0 < sum (map exp x)).
  { apply (sum_exp_pos (fun v => v)). intros ->. contradiction. }
  left. apply Rdiv_lt_0_compat; [apply exp_pos | exact Hs].
Qed.

Lemma softmax_sum x : sum (softmax x) <= 1.
Proof.
  unfold softmax. destruct x as [|v x]; [cbn; lra |].
  assert (Hs : 0 < sum (map exp (v :: x)))
    by (apply (sum_exp_pos (fun v => v)); discriminate).
  set (S := sum (map exp (v :: x))) in *.
  replace (map (fun v0 => exp v0 / S) (v :: x))
    with (map (fun v0 => / S * exp v0) (v :: x))
    by (apply map_ext; intros; unfold Rdiv; apply Rmult_comm).
  rewrite (sum_scale (/ S) exp). fold S.
  right. apply Rinv_l. lra.
Qed.

Lemma sum_nonneg (l : tensor) : Forall (fun p => 0 <= p) l -> 0 <= sum l.
Proof.
  unfold sum. induction 1; cbn [fold_right]; lra.
Qed.

Lemma one_above_half (l : tensor) :
  Forall (fun p => 0 <= p) l ->
  (1 <= count_true (map (fun p => gtb p (1 / 2)) l))%nat ->
  1 / 2 < sum l.
Proof.
  induction 1 as [|p l Hp Hl IH]; unfold count_true in *; cbn [map filter sum fold_right].
  - intros Hc. exfalso. cbn in Hc. lia.
  - fold (sum l). destruct (gtb p (1 / 2)) eqn:E.
    + intros _. apply gtb_true in E.
      pose proof (sum_nonneg Hl). lra.
    + intros Hc. specialize (IH Hc). lra.
Qed.

Lemma two_above_half (l : tensor) :
  Forall (fun p => 0 <= p) l ->
  (2 <= count_true (map (fun p => gtb p (1 / 2)) l))%nat ->
  1 < sum l.
Proof.
  induction 1 as [|p l Hp Hl IH]; unfold count_true in *; cbn [map filter sum fold_right].
  - intros Hc. exfalso. cbn in Hc. lia.
  - fold (sum l). destruct (gtb p (1 / 2)) eqn:E.
    + cbn [length]. intros Hc. apply gtb_true in E.
      pose proof (@one_above_half l Hl) as H1. unfold count_true in H1.
      specialize (H1 ltac:(lia)). lra.
    + intros Hc. specialize (IH Hc). lra.
Qed.

(** At most one entry of a softmax output exceeds one half. *)
Lemma softmax_above_half x :
  (count_true (map (fun p => gtb p (1 / 2)) (softmax x)) <= 1)%nat.
Proof.
  destruct (le_lt_dec (count_true (map (fun p => gtb p (1 / 2)) (softmax x))) 1)
    as [Hle | Hgt]; [exact Hle |].
  pose proof (@two_above_half (softmax x) (softmax_nonneg x) Hgt).
  pose proof (softmax_sum x). lra.
Qed.

Hypothesis noop_false :
  forall var, is_bool rddl var = true -> noop rddl var = false.

Lemma count_firstn_skipn (f : R -> bool) n (l : tensor) :
  (count_true (map f (firstn n l)) + count_true (map f (skipn n l))
   = count_true (map f l))%nat.
Proof.
  rewrite <- count_true_app, <- map_app. now rewrite firstn_skipn.
Qed.

Lemma unstack_count sizes start output :
  Forall (fun '(name, _) => is_bool rddl name = true) sizes ->
  (count_non_noop rddl
     (map (fun '(bool_var, bool_action) =>
             (bool_var, map (fun a => gtb a (1 / 2)) bool_action))
          (unstack_from sizes start output))
   <= count_true (map (fun p => gtb p (1 / 2)) (skipn start output)))%nat.
Proof.
  intros Hb. revert start.
  induction Hb as [|[name size] sizes Hn _ IH]; intros start;
    unfold count_non_noop in *; cbn [unstack_from map];
    [cbn; lia |].
  change (list_sum (?a :: ?l)) with (a + list_sum l)%nat.
  rewrite (noop_false _ Hn), map_map.
  specialize (IH (start + size)%nat).
  rewrite <- (count_firstn_skipn _ size (skipn start output)).
  rewrite skipn_skipn.
  replace (size + start)%nat with (start + size)%nat by lia.
  apply Nat.add_le_mono; [| exact IH].
  apply Nat.eq_le_incl. f_equal. apply map_ext.
  intros a. now destruct (gtb a (1 / 2)).
Qed.

Lemma action_sizes_bool :
  Forall (fun '(name, _) => is_bool rddl name = true) action_sizes.
Proof.
  unfold action_sizes.
  induction (action_fluents rddl) as [|[var values] fluents IH];
    cbn [flat_map]; [constructor |].
  destruct (is_bool rddl var) eqn:Eb; cbn [app]; [| exact IH].
  constructor; [exact Eb | exact IH].
Qed.

(** X10: with the softmax block, and boolean actions that all default to
    false, the test policy sets at most one boolean action entry at any
    step, whatever the parameters are. *)
Theorem softmax_predict_at_most_one (param : list tensor) (step : nat) :
  (count_non_noop rddl (softmax_predict_test param step) <= 1)%nat.
Proof.
  unfold softmax_predict_test, _jax_unstack_bool_from_softmax. cbv zeta.
  eapply Nat.le_trans; [apply unstack_count, action_sizes_bool |].
  cbn [skipn]. apply softmax_above_half.
Qed.

End Softmax.

Lemma softmax_predict_at_most_one_witness :
  (count_non_noop rddl_noop_false
     (softmax_predict_test rddl_noop_false [[3%R; 0%R]] 0) <= 1)%nat.
Proof.
  exact (@softmax_predict_at_most_one rddl_noop_false rddl_noop_false_noop
           [[3; 0]] 0%nat).
Defined.

End Plan.

(** ** Returns and risk utilities *)

Module Risk.
Import Jnp Utility.
Local Open Scope R_scope.

(** [jnp.mean] and [jnp.var] of a batch.  The mean of an empty batch is
    0/0, not a number: no value is given for it. *)
Definition mean (x : tensor) : option R :=
  match x with
  | [] => None
  | _ :: _ => Some (sum x / INR (length x))
  end.

Definition var (x : tensor) : option R :=
  match mean x with
  | Some m => mean (map (fun v => (v - m) * (v - m)) x)
  | None => None
  end.

(** [mean_variance_utility(returns, beta)] *)
Definition mean_variance_utility (returns : tensor) (beta : R) : option R :=
  match mean returns, var returns with
  | Some m, Some v => Some (m - (beta / 2) * v)
  | _, _ => None
  end.

(** [jnp.sign] *)
Definition sign (x : R) : R :=
  if Rlt_dec 0 x then 1 else if Rlt_dec x 0 then -1 else 0.

(** The symlog transform of [_jax_return]. *)
Definition symlog (x : R) : R := sign x * ln (1 + Rabs x).

(** [_jax_return]: a batch of reward rows, one reward per step, gives one
    return per row; [rewards.shape[1]] is the length of the rows. *)
Definition _jax_wrapped_returns (gamma : R) (use_symlog : bool)
           (rewards : list tensor) : tensor :=
  let rewards :=
    if Req_dec_T gamma 1 then rewards
    else
      let horizon := match rewards with row :: _ => length row | [] => O end in
      let discount := map (fun t => gamma ^ t) (seq 0 horizon) in
      map (fun row => map (fun '(r, d) => r * d) (combine row discount))
          rewards in
  let returns := map sum rewards in
  if use_symlog then map symlog returns else returns.

(** The discounted sum of one row, [sum_t gamma^t * r_t]. *)
Definition discounted_sum (gamma : R) (row : tensor) : R :=
  sum (map (fun '(r, t) => r * gamma ^ t) (combine row (seq 0 (length row)))).

(** *** The mean-variance utility *)

Lemma sum_squares_nonneg (m : R) (x : tensor) :
  0 <= sum (map (fun v => (v - m) * (v - m)) x).
Proof.
  unfold sum. induction x as [|v x IH]; cbn [map fold_right]; [lra |].
  pose proof (Rle_0_sqr (v - m)) as Hsq. unfold Rsqr in Hsq. lra.
Qed.

(** X12: on a non-empty batch, and for [beta >= 0], the mean-variance
    utility is defined and never exceeds the mean of the batch: the variance
    that is subtracted is a mean of squares. *)
Theorem mean_variance_utility_le_mean (returns : tensor) (beta : R) :
  0 <= beta -> returns <> [] ->
  exists u m,
    mean_variance_utility returns beta = Some u /\
    mean returns = Some m /\
    u <= m.
Proof.
  intros Hb Hne. destruct returns as [|r rs]; [contradiction |].
  unfold mean_variance_utility, var. cbn [mean].
  set (m := sum (r :: rs) / INR (length (r :: rs))).
  cbn [map mean]. eexists. exists m. split; [reflexivity |].
  split; [reflexivity |].
  pose proof (sum_squares_nonneg m (r :: rs)) as Hs. cbn [map] in Hs.
  set (squares := (r - m) * (r - m) :: map (fun v => (v - m) * (v - m)) rs)
    in *.
  assert (Hn : 0 < / INR (length squares)).
  { apply Rinv_0_lt_compat, lt_0_INR. cbn. lia. }
  assert (Hv : 0 <= sum squares / INR (length squares)).
  { unfold Rdiv. apply Rmult_le_pos; lra. }
  assert (Hbv : 0 <= beta / 2 * (sum squares / INR (length squares))).
  { apply Rmult_le_pos; lra. }
  lra.
Qed.

Lemma mean_variance_utility_le_mean_witness :
  exists u m,
    mean_variance_utility [1; 3] 2 = Some u /\
    mean [1; 3] = Some m /\
    u <= m.
Proof.
  apply mean_variance_utility_le_mean; [lra | discriminate].
Defined.

(** *** Discounting and symlog *)

Lemma combine_ones (row : tensor) (n : nat) :
  length row = length (seq n (length row)) ->
  map (fun '(r, d) => r * d)
      (combine row (map (fun t => 1 ^ t) (seq n (length row))))
  = row.
Proof.
  intros _. revert n. induction row as [|r row IH]; intros n; [reflexivity |].
  cbn [length seq map combine]. rewrite pow1, IH. f_equal. lra.
Qed.

Lemma combine_discount gamma (row : tensor) :
  map (fun '(r, d) => r * d)
      (combine row (map (fun t => gamma ^ t) (seq 0 (length row))))
  = map (fun '(r, t) => r * gamma ^ t) (combine row (seq 0 (length row))).
Proof.
  generalize 0%nat. induction row as [|r row IH]; intros n; [reflexivity |].
  cbn [length seq map combine]. now rewrite IH.
Qed.

(** X13: on a rectangular batch of rewards, and without symlog, the
    returns are the discounted sums [sum_t gamma^t * r_t] of the rows for
    every discount, 1 included, where the code skips the multiplication. *)
Theorem returns_are_discounted_sums (gamma : R) (rewards : list tensor) (h : nat) :
  Forall (fun row => length row = h) rewards ->
  _jax_wrapped_returns gamma false rewards = map (discounted_sum gamma) rewards.
Proof.
  intros Hrect. unfold _jax_wrapped_returns, discounted_sum.
  destruct (Req_dec_T gamma 1) as [-> | Hg].
  - apply map_ext_in. intros row _.
    rewrite <- combine_discount, combine_ones; [reflexivity |].
    now rewrite length_seq.
  - rewrite map_map. apply map_ext_in. intros row Hin.
    assert (Hh : match rewards with row :: _ => length row | [] => O end = h).
    { destruct rewards as [|r0 rs]; [contradiction |].
      now inversion Hrect. }
    rewrite Hh. rewrite Forall_forall in Hrect.
    rewrite <- (Hrect row Hin). now rewrite combine_discount.
Qed.

Lemma returns_are_discounted_sums_witness :
  _jax_wrapped_returns 1 false [[1; 2]; [3; 4]]
  = map (discounted_sum 1) [[1; 2]; [3; 4]].
Proof.
  apply (@returns_are_discounted_sums 1 [[1; 2]; [3; 4]] 2).
  repeat constructor.
Defined.

Lemma symlog_pos x : 0 < x -> symlog x = ln (1 + x).
Proof.
  intros H. unfold symlog, sign. destruct (Rlt_dec 0 x); [| lra].
  rewrite Rabs_pos_eq by lra. lra.
Qed.

Lemma symlog_neg x : x < 0 -> symlog x = - ln (1 - x).
Proof.
  intros H. unfold symlog, sign. destruct (Rlt_dec 0 x); [lra |].
  destruct (Rlt_dec x 0); [| lra].
  rewrite Rabs_left by lra. replace (1 + - x) with (1 - x) by lra. lra.
Qed.

Lemma symlog_zero : symlog 0 = 0.
Proof.
  unfold symlog, sign. destruct (Rlt_dec 0 0); [lra |]. lra.
Qed.

Lemma ln_one_plus_pos x : 0 < x -> 0 < ln (1 + x).
Proof. intros H. rewrite <- ln_1. apply ln_increasing; lra. Qed.

(** X14: the symlog transform never reverses the order of two returns:
    it is non-decreasing. *)
Theorem symlog_monotone (x y : R) : x <= y -> symlog x <= symlog y.
Proof.
  intros [Hxy | ->]; [| lra].
  destruct (Rtotal_order x 0) as [Hx | [-> | Hx]];
    destruct (Rtotal_order y 0) as [Hy | [-> | Hy]]; try lra;
    rewrite ?symlog_zero, ?(symlog_pos Hx), ?(symlog_pos Hy),
      ?(symlog_neg Hx), ?(symlog_neg Hy).
  - assert (ln (1 - y) < ln (1 - x)) by (apply ln_increasing; lra). lra.
  - pose proof (@ln_one_plus_pos (- x) ltac:(lra)).
    replace (1 + - x) with (1 - x) in H by lra. lra.
  - pose proof (@ln_one_plus_pos (- x) ltac:(lra)).
    replace (1 + - x) with (1 - x) in H by lra.
    pose proof (ln_one_plus_pos Hy). lra.
  - left. apply ln_one_plus_pos. exact Hy.
  - left. apply ln_increasing; lra.
Qed.

Lemma symlog_monotone_witness : symlog (-1) <= symlog 2.
Proof. apply symlog_monotone. lra. Defined.

End Risk.

(** ** Further properties of the optimization driver *)

Module Driver.
Import PrimFloat Planner.

Section RollingWindow.

Variable window_size : positive.

(** The state after a sequence of updates. *)
Definition feed (self : RollingMean) (xs : list float) : RollingMean :=
  fold_left (fun self x => snd (RollingMean_update self x)) xs self.

(** The last [n] elements of a list, all of them when it is shorter. *)
Definition lastn {A} (n : nat) (l : list A) : list A :=
  skipn (length l - n) l.

Lemma lastn_app_lastn {A} (n : nat) (a b : list A) :
  lastn n (lastn n a ++ b) = lastn n (a ++ b).
Proof.
  unfold lastn.
  assert (Ha : skipn (length a - n) (a ++ b) = skipn (length a - n) a ++ b).
  { rewrite skipn_app.
    replace (length a - n - length a) with 0 by lia. reflexivity. }
  rewrite <- Ha, skipn_skipn. f_equal.
  rewrite length_skipn, !length_app. lia.
Qed.

Lemma update_memory (self : RollingMean) (x : float) :
  length (_memory self) <= Pos.to_nat (_window_size self) ->
  _memory (snd (RollingMean_update self x))
  = lastn (Pos.to_nat (_window_size self)) (_memory self ++ [x]) /\
  _window_size (snd (RollingMean_update self x)) = _window_size self.
Proof.
  intros Hl. unfold RollingMean_update, lastn.
  pose proof (Pos2Nat.is_pos (_window_size self)) as Hw.
  rewrite length_app. cbn [length].
  destruct (length (_memory self) =? Pos.to_nat (_window_size self)) eqn:E.
  - apply Nat.eqb_eq in E.
    destruct (_memory self) as [|oldest rest] eqn:Em; [cbn in E; lia |].
    cbn [snd _memory _window_size]. split; [| reflexivity].
    replace (length (oldest :: rest) + 1 - Pos.to_nat (_window_size self))
      with 1 by lia.
    reflexivity.
  - apply Nat.eqb_neq in E.
    cbn [snd _memory _window_size]. split; [| reflexivity].
    replace (length (_memory self) + 1 - Pos.to_nat (_window_size self))
      with 0 by lia.
    reflexivity.
Qed.

Lemma lastn_length {A} n (l : list A) : length (lastn n l) <= n.
Proof. unfold lastn. rewrite length_skipn. lia. Qed.

Lemma feed_memory (xs : list float) :
  forall self,
    length (_memory self) <= Pos.to_nat (_window_size self) ->
    _memory (feed self xs)
    = lastn (Pos.to_nat (_window_size self)) (_memory self ++ xs) /\
    _window_size (feed self xs) = _window_size self.
Proof.
  induction xs as [|x xs IH]; intros self Hl.
  - cbn [feed fold_left]. rewrite app_nil_r. split; [| reflexivity].
    unfold lastn. replace (length (_memory self) - _) with 0 by lia.
    reflexivity.
  - cbn [feed fold_left]. fold (feed (snd (RollingMean_update self x)) xs).
    destruct (update_memory self x Hl) as (Hm & Hw).
    destruct (IH (snd (RollingMean_update self x))) as (Hm' & Hw').
    { rewrite Hm, Hw. apply lastn_length. }
    rewrite Hm', Hw', Hw, Hm. split; [| reflexivity].
    rewrite lastn_app_lastn, <- app_assoc. reflexivity.
Qed.

(** X15: after any sequence of updates of a fresh [RollingMean] its
    memory holds the most recent values, in order, as many as the window
    has room for, and never more. *)
Theorem rolling_memory_is_recent_window (xs : list float) :
  let self := feed (RollingMean_init window_size) xs in
  _memory self = lastn (Pos.to_nat window_size) xs /\
  length (_memory self) <= Pos.to_nat window_size.
Proof.
  cbv zeta.
  destruct (feed_memory xs (RollingMean_init window_size)) as (Hm & _).
  { cbn. lia. }
  cbn [RollingMean_init _memory _window_size app] in Hm.
  rewrite Hm. split; [reflexivity | apply lastn_length].
Qed.

Lemma feed_total (xs : list float) :
  forall self,
    length (_memory self) + length xs <= Pos.to_nat (_window_size self) ->
    _total (feed self xs) = fold_left add xs (_total self) /\
    _memory (feed self xs) = _memory self ++ xs /\
    _window_size (feed self xs) = _window_size self.
Proof.
  induction xs as [|x xs IH]; intros self Hl.
  - cbn. now rewrite app_nil_r.
  - cbn [feed fold_left]. fold (feed (snd (RollingMean_update self x)) xs).
    cbn [length] in Hl.
    assert (Hs : snd (RollingMean_update self x)
                 = {| _window_size := _window_size self;
                      _memory := _memory self ++ [x];
                      _total := (_total self + x)%float |}).
    { unfold RollingMean_update.
      destruct (length (_memory self) =? Pos.to_nat (_window_size self)) eqn:E;
        [apply Nat.eqb_eq in E; lia | reflexivity]. }
    rewrite Hs.
    destruct (IH {| _window_size := _window_size self;
                    _memory := _memory self ++ [x];
                    _total := (_total self + x)%float |}) as (Ht & Hm & Hw).
    { cbn [_memory _window_size]. rewrite length_app. cbn [length]. lia. }
    cbn [_total _memory _window_size] in *.
    rewrite Ht, Hm, Hw, <- app_assoc. auto.
Qed.

(** X16: while the window is not yet full, the value that an update
    returns is the sum of all values fed so far, added from the left in
    floating point, divided by their number. *)
Theorem rolling_mean_of_first_values (xs : list float) (x : float) :
  length xs < Pos.to_nat window_size ->
  fst (RollingMean_update (feed (RollingMean_init window_size) xs) x)
  = (fold_left add (xs ++ [x]) 0 / float_of_nat (S (length xs)))%float.
Proof.
  intros Hl.
  destruct (feed_total xs (RollingMean_init window_size)) as (Ht & Hm & Hw).
  { cbn. lia. }
  cbn [RollingMean_init _total _memory _window_size app] in *.
  unfold RollingMean_update. rewrite Ht, Hm, Hw.
  destruct (length xs =? Pos.to_nat window_size) eqn:E;
    [apply Nat.eqb_eq in E; lia |].
  cbn [fst]. rewrite fold_left_app, length_app. cbn [fold_left length].
  now rewrite Nat.add_1_r.
Qed.

End RollingWindow.

Lemma rolling_mean_of_first_values_witness :
  fst (RollingMean_update (feed (RollingMean_init 3) [1; 2]%float) 6%float)
  = 3%float.
Proof.
  rewrite (@rolling_mean_of_first_values 3%positive [1; 2]%float 6%float);
    [vm_compute; reflexivity | cbn; lia].
Defined.

Section Generator.

Variables Key Params OptState Updates Log : Type.
Variable split2 : Key -> Key * Key.
Variable split4 : Key -> Key * Key * Key * Key.
Variable initializer : Key -> Params.
Variable optimizer_init : Params -> OptState.
Variable grad_fn : Key -> Params -> Grad * Log.
Variable optimizer_update : Grad -> OptState -> Updates * OptState.
Variable apply_updates : Params -> Updates -> Params.
Variable projection : Params -> Params * list bool.
Variable train_loss_fn : Key -> Params -> float.
Variable test_loss_fn : Key -> Params -> float * Log.
Variable clock : nat -> float.
Variable epochs : nat.
Variable train_seconds : float.
Variable guess : option Params.
Variable test_rolling_window : positive.

Local Abbreviation body :=
  (loop_body split4 grad_fn optimizer_update apply_updates projection
     train_loss_fn test_loss_fn clock epochs train_seconds).
Local Abbreviation resume := (loop_resume (Updates:=Updates) clock).
Local Abbreviation next :=
  (generator_next split4 grad_fn optimizer_update apply_updates projection
     train_loss_fn test_loss_fn clock epochs train_seconds).
Local Abbreviation drained :=
  (drain split4 grad_fn optimizer_update apply_updates projection
     train_loss_fn test_loss_fn clock epochs train_seconds).
Local Abbreviation init :=
  (loop_init split2 initializer optimizer_init clock guess test_rolling_window).
Local Abbreviation trace :=
  (optimize_trace split2 split4 initializer optimizer_init grad_fn
     optimizer_update apply_updates projection train_loss_fn test_loss_fn
     clock epochs train_seconds guess test_rolling_window).
Local Abbreviation generator :=
  (optimize_generator split2 split4 initializer optimizer_init grad_fn
     optimizer_update apply_updates projection train_loss_fn test_loss_fn
     clock epochs train_seconds guess test_rolling_window).
Local Abbreviation spec_of_trace :=
  (@trace_spec _ _ _ _ _ split2 split4 initializer optimizer_init grad_fn
     optimizer_update apply_updates projection train_loss_fn test_loss_fn
     clock epochs train_seconds guess test_rolling_window).

Lemma init_running key : ls_broke (init key) = false.
Proof.
  unfold loop_init. destruct guess; [reflexivity |].
  destruct (split2 key); reflexivity.
Qed.

Lemma init_index key : ls_it (init key) = 0.
Proof.
  unfold loop_init. destruct guess; [reflexivity |].
  destruct (split2 key); reflexivity.
Qed.

Lemma drain_length fuel :
  forall s,
    ls_it s + fuel = epochs ->
    length (drained fuel s) <= fuel /\
    (ls_broke s = false -> length (drained fuel s) < fuel ->
     exists l, last (map Some (drained fuel s)) None = Some l /\
               is_failure (it_status l) = true).
Proof.
  induction fuel as [|fuel IH]; intros s Hfuel.
  - cbn. split; [lia | intros; lia].
  - cbn [drain]. unfold generator_next.
    destruct (ls_broke s) eqn:Eb.
    { cbn. split; [lia | intros; discriminate]. }
    destruct (epochs <=? ls_it s) eqn:E;
      [apply Nat.leb_le in E; lia |].
    assert (Hit : ls_it (resume s (body s)) + fuel = epochs).
    { cbn [loop_resume ls_it].
      rewrite (@body_index _ _ _ _ _ split4 grad_fn optimizer_update
                 apply_updates projection train_loss_fn test_loss_fn clock
                 epochs train_seconds s). lia. }
    destruct (IH _ Hit) as (Hlen & Hlast).
    cbn [length]. split; [lia |].
    intros _ Hlt.
    destruct (is_failure (it_status (body s))) eqn:Ef.
    + rewrite (@drain_broke _ _ _ _ _ split4 grad_fn optimizer_update
                 apply_updates projection train_loss_fn test_loss_fn clock
                 epochs train_seconds fuel (resume s (body s)) Ef).
      cbn. eauto.
    + destruct (Hlast Ef ltac:(lia)) as (l & Hl & Hfail).
      exists l. split; [| exact Hfail].
      cbn [map].
      destruct (drained fuel (resume s (body s))) as [|l1 tr];
        [discriminate | exact Hl].
Qed.

(** X18: the generator yields at most [epochs] records, and it yields
    fewer only when the last record it yielded has a failure status. *)
Theorem records_bounded_by_epochs key :
  length (generator key) <= epochs /\
  (length (generator key) < epochs ->
   exists r, last (map Some (generator key)) None = Some r /\
             is_failure (status r) = true).
Proof.
  unfold optimize_generator. rewrite length_map.
  destruct (@drain_length epochs (init key)) as (Hlen & Hlast).
  { now rewrite init_index. }
  split; [exact Hlen |].
  intros Hlt. destruct (Hlast (init_running key) Hlt) as (l & Hl & Hf).
  exists (yielded l). split; [| exact Hf].
  unfold optimize_trace.
  revert Hl. generalize (drained epochs (init key)). intros tr.
  induction tr as [|l0 tr IH]; [discriminate |].
  cbn [map]. destruct tr as [|l1 tr].
  - cbn. intros H; inversion H; reflexivity.
  - intros H. apply IH. exact H.
Qed.

(** X19: when the measured time has reached the budget in an iteration
    whose gradient is not all numerically zero, the record of that iteration
    has a failure status and is the last one. *)
Theorem time_budget_halts key i l :
  nth_error (trace key) i = Some l ->
  (train_seconds <=? it_elapsed l)%float = true ->
  grad_norm_zero (log_grad (it_train_log l)) = false ->
  is_failure (status (yielded l)) = true /\
  length (generator key) = S i.
Proof.
  intros Hl Ht Hg.
  destruct (spec_of_trace key i Hl) as (_ & Hf & _ & s & Hb & Hs & _).
  assert (Hfail : is_failure (it_status l) = true).
  { rewrite Hb in *.
    rewrite (@body_status _ _ _ _ _ split4 grad_fn optimizer_update
               apply_updates projection train_loss_fn test_loss_fn clock
               epochs train_seconds s).
    rewrite iteration_status_last_match by exact Hg.
    rewrite Ht.
    destruct (negb (np_isfinite (it_train_loss (body s))));
      [reflexivity |].
    destruct (epochs - 1 <=? ls_it s); reflexivity. }
  split; [exact Hfail |].
  unfold optimize_generator. rewrite length_map. exact (Hf Hfail).
Qed.

End Generator.

Lemma time_budget_halts_witness :
  exists l,
    nth_error (toy_trace 1 0 0 3 0) 0 = Some l /\
    is_failure (status (yielded l)) = true /\
    length (toy_generator 1 0 0 3 0) = 1.
Proof.
  assert (H : exists l, nth_error (toy_trace 1 0 0 3 0) 0 = Some l /\
                        (0 <=? it_elapsed l)%float = true /\
                        grad_norm_zero (log_grad (it_train_log l)) = false)
    by (eexists; repeat split; vm_compute; reflexivity).
  destruct H as (l & Hl & Ht & Hg). exists l.
  split; [exact Hl |].
  unfold toy_trace, toy_generator in *.
  eapply time_budget_halts; [exact Hl | exact Ht | exact Hg].
Defined.

Section Checkpoint.

Variables Key Params OptState Updates Log : Type.
Variable split2 : Key -> Key * Key.
Variable split4 : Key -> Key * Key * Key * Key.
Variable initializer : Key -> Params.
Variable optimizer_init : Params -> OptState.
Variable grad_fn : Key -> Params -> Grad * Log.
Variable optimizer_update : Grad -> OptState -> Updates * OptState.
Variable apply_updates : Params -> Updates -> Params.
Variable projection : Params -> Params * list bool.
Variable train_loss_fn : Key -> Params -> float.
Variable test_loss_fn : Key -> Params -> float * Log.
Variable clock : nat -> float.
Variable epochs : nat.
Variable train_seconds : float.
Variable guess : option Params.
Variable test_rolling_window : positive.

Local Abbreviation body :=
  (loop_body split4 grad_fn optimizer_update apply_updates projection
     train_loss_fn test_loss_fn clock epochs train_seconds).
Local Abbreviation resume := (loop_resume (Updates:=Updates) clock).
Local Abbreviation init :=
  (loop_init split2 initializer optimizer_init clock guess test_rolling_window).
Local Abbreviation trace :=
  (optimize_trace split2 split4 initializer optimizer_init grad_fn
     optimizer_update apply_updates projection train_loss_fn test_loss_fn
     clock epochs train_seconds guess test_rolling_window).
Local Abbreviation spec_of_trace :=
  (@trace_spec _ _ _ _ _ split2 split4 initializer optimizer_init grad_fn
     optimizer_update apply_updates projection train_loss_fn test_loss_fn
     clock epochs train_seconds guess test_rolling_window).

(** The two ways in which an iteration leaves the checkpoint. *)
Lemma body_checkpoint s :
  let l := body s in
  (it_best_params l = it_policy_params l /\
   it_best_grad l = Some (log_grad (it_train_log l)) /\
   it_best_loss l = it_test_loss l /\
   it_last_iter_improve l = ls_it s) \/
  (it_best_params l = ls_best_params s /\
   it_best_grad l = ls_best_grad s /\
   it_best_loss l = ls_best_loss s /\
   it_last_iter_improve l = ls_last_iter_improve s).
Proof.
  unfold loop_body.
  destruct (split4 (ls_key s)) as [[[k subkey1] subkey2] subkey3].
  destruct (_jax_wrapped_plan_update _ _ _ _ _ _ _)
    as [[[policy_params converged] opt_state] train_log].
  destruct (test_loss_fn _ _) as [test_loss log].
  destruct (RollingMean_update _ _) as [smoothed rolling].
  destruct (smoothed <? ls_best_loss s)%float; cbn; auto.
Qed.

(** The checkpoint of an iteration: either nothing improved yet, or the
    parameters, gradient and smoothed test loss of an earlier iteration. *)
Definition checkpoint_ok key (i : nat)
           (l : iteration Key Params OptState Updates Log) : Prop :=
  it_last_iter_improve l <= i /\
  match it_best_grad l with
  | None =>
    it_best_params l = ls_policy_params (init key) /\
    it_last_iter_improve l = 0
  | Some g =>
    exists l', nth_error (trace key) (it_last_iter_improve l) = Some l' /\
               it_policy_params l' = it_best_params l /\
               log_grad (it_train_log l') = g /\
               it_test_loss l' = it_best_loss l
  end.

Lemma init_checkpoint key :
  ls_best_params (init key) = ls_policy_params (init key) /\
  ls_best_grad (init key) = None /\
  ls_last_iter_improve (init key) = 0.
Proof.
  unfold loop_init. destruct guess; [cbn; auto |].
  destruct (split2 key); cbn; auto.
Qed.

(** X20: in every record the best parameters are parameters that the loop
    really had: the initial ones as long as no iteration improved the
    smoothed test loss, and otherwise the parameters of the record whose
    index is [last_iteration_improved], which is not later than the record
    itself; the best gradient and the best loss are those of that record. *)
Theorem best_params_were_visited key i l :
  nth_error (trace key) i = Some l -> checkpoint_ok key i l.
Proof.
  revert l. induction i as [|j IH]; intros l Hl;
    destruct (spec_of_trace key _ Hl) as (_ & _ & _ & s & -> & Hs & H0 & HS);
    pose proof (body_checkpoint s) as Hc; cbv zeta in Hc; unfold checkpoint_ok.
  - rewrite (H0 eq_refl) in *. clear H0 HS.
    destruct (init_checkpoint key) as (Hp & Hg & Hi).
    destruct Hc as [(Hbp & Hbg & Hbl & Hbi) | (Hbp & Hbg & Hbl & Hbi)].
    + rewrite Hbi, Hs. split; [lia |]. rewrite Hbg.
      exists (body (init key)). rewrite Hl. auto.
    + rewrite Hbi, Hi. split; [lia |]. rewrite Hbg, Hg.
      split; [congruence | reflexivity].
  - destruct (HS j eq_refl) as (s_j & l_j & Hj & Hr).
    destruct (IH _ Hj) as (Hle & Hprev).
    destruct Hc as [(Hbp & Hbg & Hbl & Hbi) | (Hbp & Hbg & Hbl & Hbi)].
    + rewrite Hbi, Hs. split; [lia |]. rewrite Hbg.
      exists (body s). rewrite Hl. auto.
    + subst s. cbn [loop_resume ls_best_params ls_best_grad ls_best_loss
        ls_last_iter_improve] in Hbp, Hbg, Hbl, Hbi.
      rewrite Hbi. split; [lia |]. rewrite Hbg.
      destruct (it_best_grad l_j) as [g|].
      * destruct Hprev as (l' & Hn & H1 & H2 & H3).
        exists l'. rewrite Hbp, Hbl. auto.
      * destruct Hprev as (H1 & H2). rewrite Hbp. auto.
Qed.

End Checkpoint.

Lemma best_params_were_visited_witness :
  exists l,
    nth_error (toy_trace 1 0 0 3 100) 2 = Some l /\
    it_last_iter_improve l <= 2 /\
    exists l', nth_error (toy_trace 1 0 0 3 100) (it_last_iter_improve l)
               = Some l' /\
               it_policy_params l' = it_best_params l.
Proof.
  assert (H : exists l, nth_error (toy_trace 1 0 0 3 100) 2 = Some l /\
                        it_best_grad l <> None).
  { eexists. split; [vm_compute; reflexivity | vm_compute; discriminate]. }
  destruct H as (l & Hl & Hg). exists l. split; [exact Hl |].
  unfold toy_trace in *.
  pose proof Hl as Hc. apply best_params_were_visited in Hc.
  destruct Hc as (Hle & Hb).
  split; [exact Hle |].
  destruct (it_best_grad l) as [g|]; [| congruence].
  destruct Hb as (l' & Hn & Hp & _). eauto.
Defined.

End Driver.

(** ** Further properties of the action query *)

Module Query.
Import Action.

(** A value that is an array of numbers or of booleans. *)
Definition numeric (values : object) : bool :=
  match getattr_dtype values with
  | Some d => negb (non_numeric d)
  | None => false
  end.

Section CheckedState.

Variable FLUENT_SEP : string.
Variable OBJECT_SEP : string.
Variable observ_fluents : list string.
Variable init_values : string -> option ndarray.
Variables Key Params Hyperparams Actions : Type.
Variable test_policy :
  Key -> Params -> option Hyperparams -> nat -> list (string * object) -> Actions.

Local Abbreviation checked :=
  (check_subs FLUENT_SEP OBJECT_SEP observ_fluents init_values).
Local Abbreviation query :=
  (get_action FLUENT_SEP OBJECT_SEP observ_fluents init_values test_policy).

Lemma checked_keys step subs subs' :
  checked step subs = inr subs' ->
  map fst subs' = map fst subs /\
  (step <> 0 -> subs' = subs) /\
  ((forall var v, init_values var = Some v -> non_numeric (dtype v) = false) ->
   Forall (fun entry => numeric (snd entry) = true) subs').
Proof.
  revert subs'. induction subs as [|[var values] rest IH]; intros subs' H;
    cbn [check_subs] in H.
  - inversion H; subst. repeat split; constructor.
  - destruct (grounded FLUENT_SEP OBJECT_SEP var); [discriminate |].
    destruct (getattr_dtype values) as [d|] eqn:Ed; [| discriminate].
    destruct (non_numeric d) eqn:En.
    + destruct ((step =? 0) && is_observ observ_fluents var) eqn:Eo;
        [| discriminate].
      destruct (init_values var) as [initial|] eqn:Ei; [| discriminate].
      destruct (checked step rest) as [e|rest'] eqn:Er; [discriminate |].
      inversion H; subst. destruct (IH rest' eq_refl) as (Hk & Hs & Hn).
      split; [cbn; now rewrite Hk |]. split.
      * intros Hstep. apply andb_true_iff in Eo. destruct Eo as [Eo _].
        apply Nat.eqb_eq in Eo. contradiction.
      * intros Hi. constructor; [| now apply Hn].
        unfold numeric. cbn. now rewrite (Hi var initial Ei).
    + destruct (checked step rest) as [e|rest'] eqn:Er; [discriminate |].
      inversion H; subst. destruct (IH rest' eq_refl) as (Hk & Hs & Hn).
      split; [cbn; now rewrite Hk |]. split.
      * intros Hstep. now rewrite (Hs Hstep).
      * intros Hi. constructor; [| now apply Hn].
        unfold numeric. cbn [snd]. now rewrite Ed, En.
Qed.

(** X21: when [get_action] returns, the policy was called on a state with
    the keys of the given one, in the same order, and, if the initial values
    of the model are numeric or boolean arrays, with no value that is
    neither. *)
Theorem get_action_passes_numeric_state key params step subs hp actions :
  (forall var v, init_values var = Some v -> non_numeric (dtype v) = false) ->
  query key params step subs hp = inr actions ->
  exists subs',
    actions = test_policy key params hp step subs' /\
    map fst subs' = map fst subs /\
    Forall (fun entry => numeric (snd entry) = true) subs'.
Proof.
  intros Hi. unfold get_action.
  destruct (checked step subs) as [e|subs'] eqn:E; [discriminate |].
  intros H; inversion H; subst.
  destruct (checked_keys _ _ E) as (Hk & _ & Hn).
  exists subs'. auto.
Qed.

(** X22: at any step other than 0 a call of [get_action] that returns has
    called the policy on the given state itself: values are replaced at the
    first step only. *)
Theorem get_action_keeps_state_after_first_step key params step subs hp actions :
  step <> 0 ->
  get_action FLUENT_SEP OBJECT_SEP observ_fluents init_values test_policy
    key params step subs hp = inr actions ->
  actions = test_policy key params hp step subs.
Proof.
  intros Hs. unfold get_action.
  destruct (checked step subs) as [e|subs'] eqn:E; [discriminate |].
  intros H; inversion H; subst.
  destruct (checked_keys _ _ E) as (_ & Hsame & _).
  now rewrite (Hsame Hs).
Qed.

End CheckedState.

Lemma get_action_passes_numeric_state_witness :
  exists subs',
    [("obs"%string, Array zeros); ("x"%string, Array zeros)]
    = first_policy tt tt None 0 subs' /\
    map fst subs' = ["obs"%string; "x"%string] /\
    Forall (fun entry => numeric (snd entry) = true) subs'.
Proof.
  apply (@get_action_passes_numeric_state "___" "__" ["obs"%string]
           pomdp_init_values unit unit unit _ first_policy tt tt 0
           [("obs"%string, Array missing); ("x"%string, Array zeros)] None).
  - intros var v. unfold pomdp_init_values.
    destruct (String.eqb var "obs"); [| discriminate].
    intros H; inversion H; reflexivity.
  - reflexivity.
Defined.

Lemma get_action_keeps_state_after_first_step_witness :
  get_action "___" "__" ["obs"%string] pomdp_init_values first_policy tt tt 3
    [("obs"%string, Array zeros); ("x"%string, Array zeros)] None
  = inr [("obs"%string, Array zeros); ("x"%string, Array zeros)].
Proof.
  assert (H : exists actions,
             get_action "___" "__" ["obs"%string] pomdp_init_values
               first_policy tt tt 3
               [("obs"%string, Array zeros); ("x"%string, Array zeros)] None
             = inr actions) by (eexists; reflexivity).
  destruct H as (actions & H). rewrite H. f_equal.
  apply (@get_action_keeps_state_after_first_step "___" "__" ["obs"%string]
           pomdp_init_values unit unit unit _ first_policy tt tt 3
           [("obs"%string, Array zeros); ("x"%string, Array zeros)] None actions);
    [discriminate | exact H].
Defined.

End Query.

(** ** The offline controller: [JaxOfflineController] *)

Module Controller.

Section Offline.

Variables Key Params State Exn Actions : Type.
(** [random.split], [planner.optimize(key=key, **train_kwargs)], which is
    [None] when it raises, and [planner.get_action] with the evaluation
    hyper-parameters of the controller. *)
Variable split : Key -> Key * Key.
Variable optimize : Key -> option Params.
Variable get_action : Key -> option Params -> nat -> State -> Exn + Actions.
Variable train_on_reset : bool.

Record JaxOfflineController := {
  key : Key;
  step : nat;
  params : option Params;
  params_given : bool
}.

(** [__init__]; [None] when the optimization it starts raises. *)
Definition init (key0 : Key) (params0 : option Params)
  : option JaxOfflineController :=
  let given := match params0 with Some _ => true | None => false end in
  if negb train_on_reset && negb given then
    match optimize key0 with
    | Some p => Some {| key := key0; step := 0; params := Some p;
                        params_given := given |}
    | None => None
    end
  else Some {| key := key0; step := 0; params := params0;
               params_given := given |}.

(** [sample_action]: the key is split before the query, the step counter
    is advanced after it, and so only when the query returned. *)
Definition sample_action (self : JaxOfflineController) (state : State)
  : (Exn + Actions) * JaxOfflineController :=
  let '(key', subkey) := split (key self) in
  match get_action subkey (params self) (step self) state with
  | inl e =>
    (inl e, {| key := key'; step := step self; params := params self;
               params_given := params_given self |})
  | inr actions =>
    (inr actions, {| key := key'; step := S (step self); params := params self;
                     params_given := params_given self |})
  end.

Definition reset (self : JaxOfflineController) : option JaxOfflineController :=
  if train_on_reset && negb (params_given self) then
    match optimize (key self) with
    | Some p => Some {| key := key self; step := 0; params := Some p;
                        params_given := params_given self |}
    | None => None
    end
  else Some {| key := key self; step := 0; params := params self;
               params_given := params_given self |}.

(** A sequence of calls of [sample_action]. *)
Fixpoint sample_actions (self : JaxOfflineController) (states : list State)
  : list (Exn + Actions) * JaxOfflineController :=
  match states with
  | [] => ([], self)
  | state :: states' =>
    let '(result, self') := sample_action self state in
    let '(results, self'') := sample_actions self' states' in
    (result :: results, self'')
  end.

Definition returned (result : Exn + Actions) : bool :=
  match result with inr _ => true | inl _ => false end.

Definition count_returned (results : list (Exn + Actions)) : nat :=
  length (filter returned results).

(** The key of the controller after [n] calls. *)
Definition advance (n : nat) (k : Key) : Key :=
  Nat.iter n (fun k => fst (split k)) k.

Lemma advance_succ n k : advance (S n) k = advance n (fst (split k)).
Proof. unfold advance. now rewrite Nat.iter_succ_r. Qed.

(** X23: over any sequence of calls of [sample_action] the parameters of
    the controller stay the same, the step counter grows by the number of
    calls that returned, and the i-th call queries the plan with the key split
    off at that call and at the step reached by the calls that returned
    before it: a call that raises uses up a key but not a step. *)
Theorem offline_controller_replays_plan (states : list State) :
  forall self,
    let '(results, self') := sample_actions self states in
    params self' = params self /\
    params_given self' = params_given self /\
    step self' = step self + count_returned results /\
    key self' = advance (length states) (key self) /\
    length results = length states /\
    forall i state,
      nth_error states i = Some state ->
      nth_error results i
      = Some (get_action (snd (split (advance i (key self)))) (params self)
                (step self + count_returned (firstn i results)) state).
Proof.
  induction states as [|state states IH]; intros self.
  - cbn. repeat split; try lia. intros i state H. destruct i; discriminate.
  - cbn [sample_actions]. unfold sample_action.
    destruct (split (key self)) as [key' subkey] eqn:Es.
    destruct (get_action subkey (params self) (step self) state)
      as [e|actions] eqn:Eg.
    + match goal with
      | |- context [sample_actions ?c states] =>
        specialize (IH c); destruct (sample_actions c states) as [results self']
      end.
      cbn [params params_given step key] in IH.
      destruct IH as (Hp & Hg & Hs & Hk & Hl & Hn).
      unfold count_returned in *. cbn [filter returned length].
      repeat split; try assumption; try lia.
      * rewrite advance_succ, Es. exact Hk.
      * intros i st Hi. destruct i as [|i]; cbn [nth_error firstn] in *.
        -- inversion Hi; subst. cbn [advance Nat.iter nat_rect filter length].
           rewrite Es, Nat.add_0_r. cbn [snd]. now rewrite Eg.
        -- rewrite (Hn i st Hi), advance_succ, Es.
           cbn [filter returned fst]. reflexivity.
    + match goal with
      | |- context [sample_actions ?c states] =>
        specialize (IH c); destruct (sample_actions c states) as [results self']
      end.
      cbn [params params_given step key] in IH.
      destruct IH as (Hp & Hg & Hs & Hk & Hl & Hn).
      unfold count_returned in *. cbn [filter returned length].
      repeat split; try assumption; try lia.
      * rewrite advance_succ, Es. exact Hk.
      * intros i st Hi. destruct i as [|i]; cbn [nth_error firstn] in *.
        -- inversion Hi; subst. cbn [advance Nat.iter nat_rect filter length].
           rewrite Es, Nat.add_0_r. cbn [snd]. now rewrite Eg.
        -- rewrite (Hn i st Hi), advance_succ, Es.
           cbn [filter returned fst length]. do 2 f_equal. lia.
Qed.

End Offline.

End Controller.

(** ** The diagnosis after the loop: [_perform_diagnosis] *)

Module Diagnosis.
Import PrimFloat Planner.

Set Warnings "-inexact-float".

(** The messages that [_perform_diagnosis] can return. *)
Inductive diagnosis :=
| diverged
| plateau
| bad_hyperparameter
| train_test_disagree
| high_gradient
| converged.

(** The builtin [max] of Python on two numbers, and on a sequence, where
    it fails on an empty one. *)
Definition py_max (a b : float) : float := if (a <? b)%float then b else a.

Definition py_max_list (l : list float) : option float :=
  match l with
  | [] => None
  | x :: l' => Some (fold_left py_max l' x)
  end.

(** [_perform_diagnosis]; [grad_norm] holds the leaves of the norms of the
    best gradient, and [None] is the error of [max] on no leaf. *)
Definition _perform_diagnosis (last_iter_improve : nat)
           (train_return test_return best_return : float)
           (grad_norm : list float) : option diagnosis :=
  match py_max_list grad_norm with
  | None => None
  | Some max_grad_norm =>
    let grad_is_zero := np_allclose_zero [max_grad_norm] in
    let validation_error :=
      (100 * abs (test_return - train_return)
       / py_max (abs train_return) (abs test_return))%float in
    if negb (np_isfinite train_return) then Some diverged
    else if last_iter_improve <=? 1 then
      if grad_is_zero then Some plateau else Some bad_hyperparameter
    else if negb (validation_error <? 20)%float then Some train_test_disagree
    else if negb grad_is_zero
            && negb (1 <? abs best_return / max_grad_norm)%float
         then Some high_gradient
    else Some converged
  end.

(** X24: a run whose best parameters date from iteration 0 or 1 is never
    diagnosed as converged nor given a warning: whatever its returns and
    gradient are, the diagnosis is one of the three failures. *)
Theorem early_best_is_diagnosed_as_failure last_iter_improve train_return
        test_return best_return grad_norm :
  last_iter_improve <= 1 -> grad_norm <> [] ->
  exists d,
    _perform_diagnosis last_iter_improve train_return test_return best_return
      grad_norm = Some d /\
    In d [diverged; plateau; bad_hyperparameter].
Proof.
  intros Hl Hg. unfold _perform_diagnosis.
  destruct grad_norm as [|g gs]; [contradiction |]. cbn [py_max_list].
  destruct (negb (np_isfinite train_return)); [cbn; eauto |].
  replace (last_iter_improve <=? 1) with true
    by (symmetry; now apply Nat.leb_le).
  destruct (np_allclose_zero [fold_left py_max gs g]); cbn; eauto 6.
Qed.

Lemma early_best_is_diagnosed_as_failure_witness :
  _perform_diagnosis 1 3 3 3 [0%float] = Some plateau.
Proof.
  destruct (@early_best_is_diagnosed_as_failure 1 3%float 3%float 3%float
              [0%float] ltac:(lia) ltac:(discriminate)) as (d & Hd & _).
  rewrite Hd. vm_compute in Hd. symmetry. exact Hd.
Defined.

(** X25: when the training return and the test return are both zero the
    relative error is 0/0, which is not below 20: a run that made progress
    is then diagnosed as a disagreement of train and test returns although
    they are equal. *)
Theorem zero_returns_diagnosed_as_disagreement last_iter_improve best_return
        grad_norm :
  1 < last_iter_improve -> grad_norm <> [] ->
  _perform_diagnosis last_iter_improve 0 0 best_return grad_norm
  = Some train_test_disagree.
Proof.
  intros Hl Hg. unfold _perform_diagnosis.
  destruct grad_norm as [|g gs]; [contradiction |]. cbn [py_max_list].
  replace (last_iter_improve <=? 1) with false
    by (symmetry; apply Nat.leb_gt; lia).
  reflexivity.
Qed.

Lemma zero_returns_diagnosed_as_disagreement_witness :
  _perform_diagnosis 5 0 0 0 [1%float] = Some train_test_disagree.
Proof.
  apply zero_returns_diagnosed_as_disagreement; [lia | discriminate].
Defined.

End Diagnosis.

(** ** The sort-based projection on a plan whose action defaults to false *)

Module Feasible.
Import Jnp SLP Plan.
Local Open Scope R_scope.

Lemma sorting_projection_example :
  projection rddl_noop_false 1 true (1 / 1000000) false 0 unbounded
    sorting_project [("a"%string, [[2; 1]])] unit_weights
  = Some ([("a"%string, [[1; 0]])], [true]).
Proof.
  unfold projection, sorting_project_to_max_constraint, vmap.
  cbn [_jax_wrapped_slp_project_to_box map fst snd String.eqb Ascii.eqb
       Bool.eqb bool_key is_bool ranges variable_ranges rddl_noop_false].
  rewrite !box_id_unit_weight by lra.
  cbn [seq map slice nth].
  rewrite sorting_project_example.
  cbn [sequence map fst snd stack assoc String.eqb Ascii.eqb Bool.eqb].
  reflexivity.
Qed.

Lemma sorting_project_bound_noop_false_witness :
  (count_non_noop rddl_noop_false
     (_jax_wrapped_slp_predict_test rddl_noop_false true
        [("a"%string, [[1%R; 0%R]])] 0)
   <= allowed_actions rddl_noop_false)%nat.
Proof.
  assert (Hm : 0 < 1 / 1000000 < 1 / 2) by lra.
  assert (Hw : forall var : string, 0 < unit_weights var)
    by (intros var; unfold unit_weights; lra).
  assert (Hnd : NoDup (map fst [("a"%string, [[2; 1]])])).
  { cbn. constructor; [intros [] | constructor]. }
  destruct (@sorting_project_bound_noop_false rddl_noop_false 1 true
              (1 / 1000000) false unbounded unit_weights
              rddl_noop_false_noop Hw Hm
              [("a"%string, [[2; 1]])] [("a"%string, [[1; 0]])] [true]
              Hnd sorting_projection_example) as (_ & H).
  apply H. lia.
Defined.

End Feasible.

(** ** The train policy and the test policy of a straight-line plan *)

Module Policy.
Import Jnp SLP Plan.
Local Open Scope R_scope.

(** [jnp.round]: to the nearest integer, a tie to the even one. *)
Definition round (x : R) : Z :=
  let f := Int_part x in
  let d := x - IZR f in
  if Rlt_dec d (1 / 2) then f
  else if Rlt_dec (1 / 2) d then (f + 1)%Z
  else if Z.even f then f else (f + 1)%Z.

(** What the test policy returns for one entry of a non-boolean action. *)
Inductive test_value :=
| real_value (x : R)
| int_value (z : Z).

Section Policies.

Variable rddl : RDDLLiftedModel.
Variable wrap_sigmoid : bool.
Variable wrap_non_bool : bool.
Variable bounds : string -> option R * option R.

(** The least and the greatest value of the integer type [compiled.INT]. *)
Variables int_min int_max : Z.

(** [.astype(compiled.INT)] on a float that holds an integer: exact inside
    the range of the type; outside of it the conversion is not fixed by the
    source and no value is given. *)
Definition astype_INT (z : Z) : option Z :=
  if ((int_min <=? z) && (z <=? int_max))%Z then Some z else None.

Definition _jax_wrapped_slp_predict_train (params : plan_params)
           (hp : hyperparams) (step : nat) : list (string * tensor) :=
  flat_map (fun '(var, param) =>
              let action := nth step param [] in
              if String.eqb var bool_key then
                let output := softmax action in
                _jax_unstack_bool_from_softmax rddl output
              else if is_bool rddl var then
                [(var, map (fun x => _jax_bool_param_to_action wrap_sigmoid
                                       var x hp) action)]
              else
                [(var, map (fun x => _jax_non_bool_param_to_action
                                       wrap_non_bool bounds var x hp) action)])
           params.

(** The last branch of [_jax_wrapped_slp_predict_test], on one entry of the
    parameter of a non-boolean action. *)
Definition non_bool_test_action (var : string) (param : R) (hp : hyperparams)
  : option test_value :=
  let action := _jax_non_bool_param_to_action wrap_non_bool bounds var param hp in
  let action := clip_bounds bounds var action in
  match ranges rddl var with
  | range_int => option_map int_value (astype_INT (round action))
  | _ => Some (real_value action)
  end.

End Policies.

Lemma sigmoid_above_half x : 1 / 2 < sigmoid x <-> 0 < x.
Proof.
  unfold sigmoid. pose proof (exp_pos (- x)) as He.
  assert (Hs : 1 / (1 + exp (- x)) * (1 + exp (- x)) = 1) by (field; lra).
  split; intros H.
  - assert (Hlt : exp (- x) < exp 0) by (rewrite exp_0; nra).
    apply exp_lt_inv in Hlt. lra.
  - assert (Hlt : exp (- x) < exp 0) by (apply exp_increasing; lra).
    rewrite exp_0 in Hlt. nra.
Qed.

Lemma round_between (x : R) (a b : Z) :
  IZR a <= x <= IZR b -> (a <= round x <= b)%Z.
Proof.
  intros [Ha Hb]. destruct (base_Int_part x) as [H1 H2].
  assert (Hfa : (a <= Int_part x)%Z).
  { assert (H : (a < Int_part x + 1)%Z)
      by (apply lt_IZR; rewrite plus_IZR; lra).
    lia. }
  assert (Hfb : (Int_part x <= b)%Z) by (apply le_IZR; lra).
  assert (Hup : 0 < x - IZR (Int_part x) -> (Int_part x + 1 <= b)%Z).
  { intros Hd. assert (H : (Int_part x < b)%Z) by (apply lt_IZR; lra). lia. }
  unfold round.
  destruct (Rlt_dec (x - IZR (Int_part x)) (1 / 2)) as [Hd | Hd]; [lia |].
  destruct (Rlt_dec (1 / 2) (x - IZR (Int_part x))) as [Hd' | Hd'].
  - specialize (Hup ltac:(lra)). lia.
  - destruct (Z.even (Int_part x)); [lia |].
    specialize (Hup ltac:(lra)). lia.
Qed.

Lemma Forall2_map_same {A B C} (P : B -> C -> Prop) (f : A -> B)
      (g : A -> C) (l : list A) :
  (forall x, P (f x) (g x)) -> Forall2 P (map f l) (map g l).
Proof.
  intros H. induction l as [|x l IH]; cbn [map]; constructor; auto.
Qed.

(** X27: for a plan without the softmax block, and with positive sigmoid
    weights when [wrap_sigmoid] is set, the test policy never contradicts the
    train policy: a boolean entry that is set at test time has a train action
    of at least 1/2, and one that is not set has a train action of at most
    1/2. *)
Theorem test_policy_agrees_with_train_policy rddl wrap_sigmoid wrap_non_bool
        bounds (params : plan_params) (hp : hyperparams) (step : nat) :
  (forall var, In var (map fst params) -> String.eqb var bool_key = false) ->
  (wrap_sigmoid = true -> forall var, 0 < hp var) ->
  Forall2 (fun '(var, set) '(var', action) =>
             var = var' /\
             Forall2 (fun (b : bool) (a : R) =>
                        if b then 1 / 2 <= a else a <= 1 / 2) set action)
    (_jax_wrapped_slp_predict_test rddl wrap_sigmoid params step)
    (filter (fun '(var, _) => is_bool rddl var)
       (_jax_wrapped_slp_predict_train rddl wrap_sigmoid wrap_non_bool bounds
          params hp step)).
Proof.
  intros Hk Hw.
  unfold _jax_wrapped_slp_predict_test, _jax_wrapped_slp_predict_train.
  induction params as [|[var param] params IH]; [constructor |].
  cbn [flat_map]. rewrite filter_app.
  specialize (IH (fun v Hv => Hk v (or_intror Hv))).
  rewrite (Hk var) by (left; reflexivity).
  destruct (is_bool rddl var) eqn:Eb; cbn [filter]; rewrite Eb; cbn [app];
    [| exact IH].
  constructor; [| exact IH]. split; [reflexivity |].
  apply Forall2_map_same. intros x.
  unfold bool_threshold, _jax_bool_param_to_action.
  destruct wrap_sigmoid.
  - specialize (Hw eq_refl var).
    destruct (gtb x 0) eqn:E.
    + apply gtb_true in E. left. apply sigmoid_above_half. nra.
    + apply gtb_false in E.
      destruct (Rle_lt_dec (sigmoid (hp var * x)) (1 / 2)) as [H | H];
        [exact H |].
      apply sigmoid_above_half in H. nra.
  - destruct (gtb x (1 / 2)) eqn:E.
    + apply gtb_true in E. lra.
    + apply gtb_false in E. exact E.
Qed.

(** X28: the test action of an integer action whose bounds are integers
    inside the range of the integer type is defined and obeys the bounds:
    clipping comes before rounding, and rounding a value between two integers
    stays between them. *)
Theorem int_test_action_in_bounds rddl wrap_non_bool bounds int_min int_max
        (var : string) (param : R) (hp : hyperparams) (a b : Z) :
  ranges rddl var = range_int ->
  bounds var = (Some (IZR a), Some (IZR b)) ->
  (a <= b)%Z -> (int_min <= a)%Z -> (b <= int_max)%Z ->
  exists z,
    non_bool_test_action rddl wrap_non_bool bounds int_min int_max var param hp
    = Some (int_value z) /\
    (a <= z <= b)%Z.
Proof.
  intros Hr Hb Hab Hmin Hmax. unfold non_bool_test_action. rewrite Hr.
  set (x := clip_bounds bounds var
              (_jax_non_bool_param_to_action wrap_non_bool bounds var param hp)).
  assert (Hx : IZR a <= x <= IZR b).
  { apply IZR_le in Hab. unfold x, clip_bounds. rewrite Hb.
    unfold Rmin, Rmax. repeat destruct Rle_dec; lra. }
  apply round_between in Hx. exists (round x). split; [| exact Hx].
  unfold astype_INT.
  replace ((int_min <=? round x)%Z) with true by (symmetry; apply Z.leb_le; lia).
  replace ((round x <=? int_max)%Z) with true by (symmetry; apply Z.leb_le; lia).
  reflexivity.
Qed.

(** X3: the test action of a real-valued action is the clipped train
    action, so it obeys every finite bound that is declared for it, with or
    without [wrap_non_bool] and whatever the parameter is. *)
Theorem real_test_action_in_bounds rddl wrap_non_bool bounds int_min int_max
        (var : string) (param : R) (hp : hyperparams) :
  ranges rddl var = range_real ->
  exists x,
    non_bool_test_action rddl wrap_non_bool bounds int_min int_max var param hp
    = Some (real_value x) /\
    (forall l u, bounds var = (Some l, Some u) -> l <= u -> l <= x <= u) /\
    (forall l, bounds var = (Some l, None) -> l <= x) /\
    (forall u, bounds var = (None, Some u) -> x <= u).
Proof.
  intros Hr. unfold non_bool_test_action.
  set (action := _jax_non_bool_param_to_action wrap_non_bool bounds var param hp).
  exists (clip_bounds bounds var action). split.
  - rewrite Hr. reflexivity.
  - unfold clip_bounds. split; [| split].
    + intros l u Hb Hlu. rewrite Hb. unfold Rmin, Rmax.
      repeat destruct Rle_dec; lra.
    + intros l Hb. rewrite Hb. unfold Rmax. destruct Rle_dec; lra.
    + intros u Hb. rewrite Hb. unfold Rmin. destruct Rle_dec; lra.
Qed.

Lemma test_policy_agrees_with_train_policy_witness :
  Forall2 (fun '(var, set) '(var', action) =>
             var = var' /\
             Forall2 (fun (b : bool) (a : R) =>
                        if b then 1 / 2 <= a else a <= 1 / 2) set action)
    (_jax_wrapped_slp_predict_test rddl_noop_false true
       [("a"%string, [[2; -1]])] 0)
    (filter (fun '(var, _) => is_bool rddl_noop_false var)
       (_jax_wrapped_slp_predict_train rddl_noop_false true false unbounded
          [("a"%string, [[2; -1]])] unit_weights 0)).
Proof.
  apply test_policy_agrees_with_train_policy.
  - intros var [<- | []]. reflexivity.
  - intros _ var. unfold unit_weights. lra.
Defined.

Definition rddl_int : RDDLLiftedModel :=
  {| action_fluents := [("n"%string, [false])];
     variable_ranges := fun _ => range_int;
     max_allowed_actions := 1 |}.

Lemma int_test_action_in_bounds_witness :
  exists z,
    non_bool_test_action rddl_int false (fun _ => (Some 0, Some 3))
      (-2147483648) 2147483647 "n" (5 / 2) unit_weights
    = Some (int_value z) /\
    (0 <= z <= 3)%Z.
Proof.
  apply int_test_action_in_bounds; [reflexivity | reflexivity | lia | lia | lia].
Defined.

Definition rddl_real : RDDLLiftedModel :=
  {| action_fluents := [("u"%string, [false])];
     variable_ranges := fun _ => range_real;
     max_allowed_actions := 1 |}.

Lemma real_test_action_in_bounds_witness :
  exists x,
    non_bool_test_action rddl_real false (fun _ => (Some 0, Some 3))
      (-2147483648) 2147483647 "u" 7 unit_weights
    = Some (real_value x) /\
    0 <= x <= 3.
Proof.
  destruct (@real_test_action_in_bounds rddl_real false
              (fun _ => (Some 0, Some 3)) (-2147483648) 2147483647
              "u"%string 7 unit_weights) as (x & Hx & Hb & _).
  - reflexivity.
  - exists x. split; [exact Hx |]. apply (Hb 0 3); [reflexivity | lra].
Defined.

End Policy.
